(** * libbitcoin-network: channel timers and the session registration sequence

    A shallow embedding of [src/channel.cpp] and [src/sessions/session.cpp].

    The C++ code is written in continuation-passing style: every operation
    takes a [result_handler] (a [std::function<void(const code&)>]) and
    reports its outcome by calling it.  Closures built with [std::bind] are
    represented here by a first-order type [handler], one constructor per
    bound member function, and called through one dispatcher, [call].
    Mutable objects (the channel, its session, the p2p network object, the
    thread pool's queue) live in one record, [world], threaded through a
    small state monad [M].  A world holds one channel, the one whose
    registration is in flight: every [channel::ptr] argument of the source
    denotes it.  The verbose log lines that open each function have no
    effect on the state and are left out. *)

From Stdlib Require Import ZArith List Bool Lia.
Import ListNotations.
Local Open Scope Z_scope.

(** ** Status codes *)

(** [bc::code] with the [bc::error] values the two files mention by name;
    [other_error n] stands for every remaining non-success value. *)
Inductive code : Type :=
| success
| operation_failed
| service_stopped
| channel_stopped
| channel_timeout
| address_in_use
| other_error (n : nat).

Definition code_eq_dec (a b : code) : {a = b} + {a <> b}.
Proof. decide equality. apply Nat.eq_dec. Defined.

(** [ec == other] on codes. *)
Definition code_eqb (a b : code) : bool :=
  if code_eq_dec a b then true else false.

(** [if (ec)]: a code converts to [true] exactly when it is not success. *)
Definition is_error (ec : code) : bool := negb (code_eqb ec success).

(** ** Closures *)

(** The closures the two files create, and the ones their callers pass in.
    [caller id] is a closure supplied from outside these files; calling it
    is recorded in the world's log, which makes "invoked exactly once"
    observable.  The other constructors are the [std::bind]/[BINDn]
    expressions of the source; the bound [channel::ptr] (always the channel
    of the world) is left implicit. *)
Inductive handler : Type :=
| caller (id : nat)
| bind_do_start (h : handler)
| bind_handle_expiration
| bind_handle_inactivity
| bind_handle_stop
| bind_handle_starting (handle_started : handler)
| bind_handle_handshake (handle_started : handler)
| bind_handle_start (handle_started handle_stopped : handler)
| bind_handle_remove (handle_stopped : handler).

(** The two handshake protocol classes a session can attach. *)
Inductive protocol : Type :=
| protocol_version_31402
| protocol_version_70002.

(** What the outside can observe of a run. *)
Inductive event : Type :=
| called (id : nat) (ec : code)
| protocol_started (p : protocol) (h : handler).

(** ** Data *)

(** [config::authority]: an IP address (its 128-bit value) and a port. *)
Record authority : Type := { ip : Z; port : Z }.

(** The fields of [network::settings] read by the two files. *)
Record settings : Type := {
  channel_expiration : Z;
  channel_inactivity : Z;
  protocol_maximum : Z;
  blacklists : list authority }.

(** Modelled from the spec: the Deadline Timer (spec 4.1), whose class is not
    part of the two files.  A single-shot countdown with a fixed (jittered)
    duration; [wait_] holds the expiry time and the callback of the pending
    wait, [None] when the timer is not running. *)
Record deadline : Type := {
  duration_ : Z;
  wait_ : option (Z * handler) }.

(** Modelled from the spec: the transport handle a channel is built around
    (raw socket transport is an external collaborator): the address of the
    peer and the code the transport reports when it is asked to start. *)
Record socket : Type := {
  peer : authority;
  enabled : code }.

(** Modelled from the spec: the transport base class [proxy] of a channel,
    which is not part of the two files.  [proxy_stopped_] is the liveness
    flag read by [proxy::stopped()], [stop_subscriber_] the closures
    subscribed to the channel's stop event. *)
Record proxy : Type := {
  proxy_stopped_ : bool;
  socket_ : socket;
  negotiated_version_ : Z;
  stop_subscriber_ : list handler }.

(** [class channel : public proxy]. *)
Record channel : Type := {
  base : proxy;
  notify_ : bool;
  nonce_ : Z;
  expiration_ : deadline;
  inactivity_ : deadline }.

(** [class session]. *)
Record session : Type := {
  stopped_ : bool;
  notify_on_connect_ : bool;
  settings_ : settings }.

(** Modelled from the spec: the Node Registry ([p2p]), an external
    collaborator: the subscribers of the node-wide stop signal and the
    admitted connections, each remembered by nonce and IP. *)
Record p2p : Type := {
  stop_subscribers : list handler;
  connections : list (Z * Z) }.

(** The pseudo random generator of the base library: [draw k lo hi] is the
    value of the [k]-th call when it asks for a number between [lo] and
    [hi], [jitter k d] when it asks for a randomised duration. *)
Record random : Type := {
  draw : nat -> Z -> Z -> Z;
  jitter : nat -> Z -> Z;
  used : nat }.

Record world : Type := {
  chan : channel;
  sess : session;
  network_ : p2p;
  entropy : random;
  clock : Z;
  posted : list (handler * code);
  log : list event }.

(** ** Field updates *)

Definition set_used (n : nat) (r : random) : random :=
  {| draw := draw r; jitter := jitter r; used := n |}.

Definition set_stop_subscribers (l : list handler) (n : p2p) : p2p :=
  {| stop_subscribers := l; connections := connections n |}.

Definition set_connections (l : list (Z * Z)) (n : p2p) : p2p :=
  {| stop_subscribers := stop_subscribers n; connections := l |}.

Definition set_wait (x : option (Z * handler)) (d : deadline) : deadline :=
  {| duration_ := duration_ d; wait_ := x |}.

Definition set_proxy_stopped (b : bool) (p : proxy) : proxy :=
  {| proxy_stopped_ := b; socket_ := socket_ p;
     negotiated_version_ := negotiated_version_ p;
     stop_subscriber_ := stop_subscriber_ p |}.

Definition set_stop_subscriber (l : list handler) (p : proxy) : proxy :=
  {| proxy_stopped_ := proxy_stopped_ p; socket_ := socket_ p;
     negotiated_version_ := negotiated_version_ p;
     stop_subscriber_ := l |}.

Definition with_base (f : proxy -> proxy) (c : channel) : channel :=
  {| base := f (base c); notify_ := notify_ c; nonce_ := nonce_ c;
     expiration_ := expiration_ c; inactivity_ := inactivity_ c |}.

Definition with_notify (b : bool) (c : channel) : channel :=
  {| base := base c; notify_ := b; nonce_ := nonce_ c;
     expiration_ := expiration_ c; inactivity_ := inactivity_ c |}.

Definition with_nonce (n : Z) (c : channel) : channel :=
  {| base := base c; notify_ := notify_ c; nonce_ := n;
     expiration_ := expiration_ c; inactivity_ := inactivity_ c |}.

Definition with_expiration (f : deadline -> deadline) (c : channel) : channel :=
  {| base := base c; notify_ := notify_ c; nonce_ := nonce_ c;
     expiration_ := f (expiration_ c); inactivity_ := inactivity_ c |}.

Definition with_inactivity (f : deadline -> deadline) (c : channel) : channel :=
  {| base := base c; notify_ := notify_ c; nonce_ := nonce_ c;
     expiration_ := expiration_ c; inactivity_ := f (inactivity_ c) |}.

Definition set_session_stopped (b : bool) (s : session) : session :=
  {| stopped_ := b; notify_on_connect_ := notify_on_connect_ s;
     settings_ := settings_ s |}.

Definition with_chan (f : channel -> channel) (w : world) : world :=
  {| chan := f (chan w); sess := sess w; network_ := network_ w;
     entropy := entropy w; clock := clock w; posted := posted w;
     log := log w |}.

Definition with_sess (f : session -> session) (w : world) : world :=
  {| chan := chan w; sess := f (sess w); network_ := network_ w;
     entropy := entropy w; clock := clock w; posted := posted w;
     log := log w |}.

Definition with_network (f : p2p -> p2p) (w : world) : world :=
  {| chan := chan w; sess := sess w; network_ := f (network_ w);
     entropy := entropy w; clock := clock w; posted := posted w;
     log := log w |}.

Definition with_entropy (f : random -> random) (w : world) : world :=
  {| chan := chan w; sess := sess w; network_ := network_ w;
     entropy := f (entropy w); clock := clock w; posted := posted w;
     log := log w |}.

Definition with_clock (f : Z -> Z) (w : world) : world :=
  {| chan := chan w; sess := sess w; network_ := network_ w;
     entropy := entropy w; clock := f (clock w); posted := posted w;
     log := log w |}.

Definition with_posted (f : list (handler * code) -> list (handler * code))
  (w : world) : world :=
  {| chan := chan w; sess := sess w; network_ := network_ w;
     entropy := entropy w; clock := clock w; posted := f (posted w);
     log := log w |}.

Definition with_log (f : list event -> list event) (w : world) : world :=
  {| chan := chan w; sess := sess w; network_ := network_ w;
     entropy := entropy w; clock := clock w; posted := posted w;
     log := f (log w) |}.

(** ** The state monad *)

Definition M (A : Type) : Type := world -> A * world.

Definition ret {A : Type} (a : A) : M A := fun w => (a, w).

Definition bind {A B : Type} (m : M A) (k : A -> M B) : M B :=
  fun w => k (fst (m w)) (snd (m w)).

Definition gets {A : Type} (f : world -> A) : M A := fun w => (f w, w).

Definition modify (f : world -> world) : M unit := fun w => (tt, f w).

(** The world a [void] operation leaves behind. *)
Definition exec {A : Type} (m : M A) (w : world) : world := snd (m w).

Declare Scope monad_scope.
Delimit Scope monad_scope with monad.
Notation "x <- m ;; k" := (bind m (fun x => k))
  (at level 61, m at next level, right associativity) : monad_scope.
Notation "m ;; k" := (bind m (fun _ => k))
  (at level 61, right associativity) : monad_scope.
Local Open Scope monad_scope.

(** Appending to the log: the effect of calling a caller's closure. *)
Definition emit (e : event) : M unit := modify (with_log (fun l => l ++ [e])).

(** ** Constants and the random generator of the base library *)

(** [max_uint64] of the base library, the largest [uint64_t]. *)
Definition max_uint64 : Z := 18446744073709551615.

(** A value converted to [uint64_t]. *)
Definition to_uint64 (v : Z) : Z := v mod 2 ^ 64.

(** Modelled from the spec: the handshake version threshold,
    [message::version::level::bip61] of the base library; 70002 is the value
    the comment in [session::attach_handshake_protocols] gives. *)
Definition bip61 : Z := 70002.

(** Modelled from the spec: [pseudo_random::next(begin, end)] of the base
    library, which gives [session::start_channel] its "fresh random nonce":
    the next draw of the generator.  That a draw lies between the bounds it
    was asked for is the contract [honours_range], stated where it is
    needed. *)
Definition pseudo_random_next (lo hi : Z) : M Z :=
  fun w =>
    let r := entropy w in
    (draw r (used r) lo hi, with_entropy (set_used (S (used r))) w).

(** Modelled from the spec: [pseudo_random::duration(expiration)] of the
    base library, the jittered duration of a timer; it is drawn while the
    channel is constructed, before any world holds it. *)
Definition pseudo_random_duration (d : Z) (r : random) : Z * random :=
  (jitter r (used r) d, set_used (S (used r)) r).

(** ** Deadline timers *)

Module Deadline.

(** Modelled from the spec: a new timer is not running. *)
Definition ctor (duration : Z) : deadline :=
  {| duration_ := duration; wait_ := None |}.

(** Modelled from the spec: [start(callback)] arms the one-shot timer; a wait
    that was pending is replaced. *)
Definition start (h : handler) (now : Z) (d : deadline) : deadline :=
  set_wait (Some (now + duration_ d, h)) d.

(** Modelled from the spec: [stop()] cancels a pending wait and does nothing
    otherwise. *)
Definition stop (d : deadline) : deadline := set_wait None d.

Definition running (d : deadline) : bool :=
  match wait_ d with Some _ => true | None => false end.

End Deadline.

(** ** The transport base class *)

Module Proxy.

Section Closures.

Variable invoke : handler -> code -> M unit.

(** Modelled from the spec: a channel is created around a transport handle
    and is not active before [start]; the negotiated version "is
    initialized to the configured maximum". *)
Definition ctor (s : socket) (cfg : settings) : proxy :=
  {| proxy_stopped_ := true; socket_ := s;
     negotiated_version_ := protocol_maximum cfg;
     stop_subscriber_ := [] |}.

(** Modelled from the spec: [proxy::stopped()] reads the liveness flag. *)
Definition stopped : M bool := gets (fun w => proxy_stopped_ (base (chan w))).

(** Modelled from the spec: [proxy::negotiated_version()]. *)
Definition negotiated_version : M Z :=
  gets (fun w => negotiated_version_ (base (chan w))).

(** Modelled from the spec: [proxy::authority()], the address of the peer. *)
Definition authority : M authority :=
  gets (fun w => peer (socket_ (base (chan w)))).

(** Modelled from the spec: the transport start.  The transport answers with
    a code; when it confirms it is enabled the channel becomes active; the
    handler is then called with the transport's code. *)
Definition start (handler : handler) : M unit :=
  ec <- gets (fun w => enabled (socket_ (base (chan w)))) ;;
  (if is_error ec then ret tt
   else modify (with_chan (with_base (set_proxy_stopped false)))) ;;
  invoke handler ec.

(** Modelled from the spec: the stop-subscription mechanism of a channel. *)
Definition subscribe_stop (handler : handler) : M unit :=
  modify (with_chan (with_base (fun p =>
    set_stop_subscriber (stop_subscriber_ p ++ [handler]) p))).

(** Modelled from the spec: [stop(ec)] makes the channel stopped, hands the
    stop code to every subscriber through the thread pool (each subscriber
    is notified once, so a repeated stop notifies nobody), and gives the
    channel the opportunity to terminate its timers through the virtual
    [handle_stopping]. *)
Definition stop (handle_stopping : M unit) (ec : code) : M unit :=
  modify (with_chan (with_base (set_proxy_stopped true))) ;;
  subscribers <- gets (fun w => stop_subscriber_ (base (chan w))) ;;
  modify (with_posted (fun q => q ++ map (fun h => (h, ec)) subscribers)) ;;
  modify (with_chan (with_base (set_stop_subscriber []))) ;;
  handle_stopping.

End Closures.

End Proxy.

(** ** channel.cpp *)

Module Channel.

(** [alarm(pool, duration)]: factory for deadline timer construction. *)
Definition alarm (duration : Z) (r : random) : deadline * random :=
  let (d, r') := pseudo_random_duration duration r in (Deadline.ctor d, r').

(** [channel::channel(pool, socket, settings)]. *)
Definition ctor (s : socket) (cfg : settings) (r : random) : channel * random :=
  let (e, r1) := alarm (channel_expiration cfg) r in
  let (i, r2) := alarm (channel_inactivity cfg) r1 in
  ({| base := Proxy.ctor s cfg;
      notify_ := false;
      nonce_ := 0;
      expiration_ := e;
      inactivity_ := i |}, r2).

Section Closures.

Variable invoke : handler -> code -> M unit.

(** [channel::notify() const]. *)
Definition notify : M bool := gets (fun w => notify_ (chan w)).

(** [channel::set_notify(value)]. *)
Definition set_notify (value : bool) : M unit :=
  modify (with_chan (with_notify value)).

(** [channel::nonce() const]. *)
Definition nonce : M Z := gets (fun w => nonce_ (chan w)).

(** [channel::set_nonce(uint64_t value)]. *)
Definition set_nonce (value : Z) : M unit :=
  modify (with_chan (with_nonce (to_uint64 value))).

(** [channel::handle_stopping()]. *)
Definition handle_stopping : M unit :=
  modify (with_chan (with_expiration Deadline.stop)) ;;
  modify (with_chan (with_inactivity Deadline.stop)).

(** [proxy::stop(ec)] as inherited by the channel. *)
Definition stop (ec : code) : M unit := Proxy.stop handle_stopping ec.

(** [channel::stopped(ec) const]. *)
Definition stopped (ec : code) : M bool :=
  s <- Proxy.stopped ;;
  ret (s || code_eqb ec channel_stopped || code_eqb ec service_stopped).

(** [channel::start_expiration()]. *)
Definition start_expiration : M unit :=
  s <- Proxy.stopped ;;
  if s then ret tt
  else
    now <- gets clock ;;
    modify (with_chan (with_expiration
      (Deadline.start bind_handle_expiration now))).

(** [channel::handle_expiration(ec)]. *)
Definition handle_expiration (ec : code) : M unit :=
  s <- stopped ec ;;
  if s then ret tt
  else stop channel_timeout.

(** [channel::start_inactivity()]. *)
Definition start_inactivity : M unit :=
  s <- Proxy.stopped ;;
  if s then ret tt
  else
    now <- gets clock ;;
    modify (with_chan (with_inactivity
      (Deadline.start bind_handle_inactivity now))).

(** [channel::handle_inactivity(ec)]. *)
Definition handle_inactivity (ec : code) : M unit :=
  s <- stopped ec ;;
  if s then ret tt
  else stop channel_timeout.

(** [channel::signal_activity()]. *)
Definition signal_activity : M unit := start_inactivity.

(** [channel::do_start(const code&, handler)]: the code is not named, and
    not read. *)
Definition do_start (_ : code) (handler : handler) : M unit :=
  start_expiration ;;
  start_inactivity ;;
  invoke handler success.

(** [channel::start(handler)]. *)
Definition start (handler : handler) : M unit :=
  Proxy.start invoke (bind_do_start handler).

End Closures.

End Channel.

(** ** The node registry *)

Module P2p.

(** Modelled from the spec: [subscribe_stop(handler)], the subscription to
    the node-wide stop signal. *)
Definition subscribe_stop (handler : handler) : M unit :=
  modify (with_network (fun n =>
    set_stop_subscribers (stop_subscribers n ++ [handler]) n)).

(** Modelled from the spec: [store(channel) -> status], admission with
    deduplication by nonce and IP. *)
Definition store : M code :=
  n <- Channel.nonce ;;
  a <- Proxy.authority ;;
  admitted <- gets (fun w => connections (network_ w)) ;;
  if existsb (fun c => (fst c =? n) || (snd c =? ip a)) admitted
  then ret address_in_use
  else (modify (with_network (set_connections (admitted ++ [(n, ip a)]))) ;;
        ret success).

(** Modelled from the spec: [remove(channel)] takes the channel out of the
    admitted set. *)
Definition remove : M unit :=
  n <- Channel.nonce ;;
  modify (with_network (fun net =>
    set_connections (filter (fun c => negb (fst c =? n)) (connections net)) net)).

End P2p.

(** ** session.cpp *)

Module Session.

(** [session::session(network, notify_on_connect)]. *)
Definition ctor (cfg : settings) (notify_on_connect : bool) : session :=
  {| stopped_ := true;
     notify_on_connect_ := notify_on_connect;
     settings_ := cfg |}.

(** Modelled from the spec: [attach<Protocol>(channel)->start(handler)];
    which variant's start method is invoked, and with which handler, is
    what an observer sees. *)
Definition attach_start (p : protocol) (handler : handler) : M unit :=
  emit (protocol_started p handler).

Section Closures.

Variable invoke : handler -> code -> M unit.

(** [session::blacklisted(authority) const]. *)
Definition blacklisted (authority : authority) : M bool :=
  list <- gets (fun w => blacklists (settings_ (sess w))) ;;
  ret (existsb (fun blocked => ip authority =? ip blocked) list).

(** [session::stopped() const]. *)
Definition stopped : M bool := gets (fun w => stopped_ (sess w)).

(** [session::stopped(ec) const]. *)
Definition stopped_code (ec : code) : M bool :=
  s <- stopped ;;
  ret (s || code_eqb ec service_stopped).

(** [session::subscribe_stop(handler)]. *)
Definition subscribe_stop (handler : handler) : M unit :=
  P2p.subscribe_stop handler.

(** [session::handle_stop(const code&)]. *)
Definition handle_stop (_ : code) : M unit :=
  modify (with_sess (set_session_stopped true)).

(** [session::start(handler)]. *)
Definition start (handler : handler) : M unit :=
  s <- stopped ;;
  if negb s
  then invoke handler operation_failed
  else (modify (with_sess (set_session_stopped false)) ;;
        subscribe_stop bind_handle_stop ;;
        invoke handler success).

(** [session::handle_remove(const code&, channel, handle_stopped)]. *)
Definition handle_remove (_ : code) (handle_stopped : handler) : M unit :=
  P2p.remove ;;
  invoke handle_stopped success.

(** [session::handle_start(ec, channel, handle_started, handle_stopped)]. *)
Definition handle_start (ec : code) (handle_started handle_stopped : handler)
  : M unit :=
  (if is_error ec
   then (Channel.stop ec ;;
         invoke handle_stopped ec)
   else Proxy.subscribe_stop (bind_handle_remove handle_stopped)) ;;
  invoke handle_started ec.

(** [session::handshake_complete(channel, handle_started)]. *)
Definition handshake_complete (handle_started : handler) : M unit :=
  r <- P2p.store ;;
  invoke handle_started r.

(** [session::handle_handshake(ec, channel, handle_started)]. *)
Definition handle_handshake (ec : code) (handle_started : handler) : M unit :=
  if is_error ec
  then invoke handle_started ec
  else handshake_complete handle_started.

(** [session::attach_handshake_protocols(channel, handle_started)]. *)
Definition attach_handshake_protocols (handle_started : handler) : M unit :=
  v <- Proxy.negotiated_version ;;
  if v >=? bip61
  then attach_start protocol_version_70002 handle_started
  else attach_start protocol_version_31402 handle_started.

(** [session::handle_starting(ec, channel, handle_started)]. *)
Definition handle_starting (ec : code) (handle_started : handler) : M unit :=
  if is_error ec
  then invoke handle_started ec
  else attach_handshake_protocols (bind_handle_handshake handle_started).

(** [session::start_channel(channel, handle_started)]. *)
Definition start_channel (handle_started : handler) : M unit :=
  n <- gets (fun w => notify_on_connect_ (sess w)) ;;
  Channel.set_notify n ;;
  v <- pseudo_random_next 1 max_uint64 ;;
  Channel.set_nonce v ;;
  Channel.start invoke (bind_handle_starting handle_started).

(** [session::register_channel(channel, handle_started, handle_stopped)]. *)
Definition register_channel (handle_started handle_stopped : handler)
  : M unit :=
  s <- stopped ;;
  if s
  then (invoke handle_started service_stopped ;;
        invoke handle_stopped service_stopped)
  else start_channel (bind_handle_start handle_started handle_stopped).

End Closures.

End Session.

(** ** Calling a closure *)

(** [handler(ec)]: a caller's closure is observed; a bound member function
    runs with the arguments it was bound to. *)
Fixpoint call (h : handler) (ec : code) {struct h} : M unit :=
  match h with
  | caller id => emit (called id ec)
  | bind_do_start handler => Channel.do_start call ec handler
  | bind_handle_expiration => Channel.handle_expiration ec
  | bind_handle_inactivity => Channel.handle_inactivity ec
  | bind_handle_stop => Session.handle_stop ec
  | bind_handle_starting hs => Session.handle_starting call ec hs
  | bind_handle_handshake hs => Session.handle_handshake call ec hs
  | bind_handle_start hs hp => Session.handle_start call ec hs hp
  | bind_handle_remove hp => Session.handle_remove call ec hp
  end.

(** ** Runs *)

(** The generator keeps the contract of [pseudo_random::next(begin, end)]:
    the value lies between the two bounds. *)
Definition honours_range (r : random) : Prop :=
  forall k lo hi, lo <= hi -> lo <= draw r k lo hi <= hi.

(** Both timers of a channel armed at time [now], as [do_start] leaves them
    on an active channel. *)
Definition armed (now : Z) (c : channel) : channel :=
  with_inactivity (Deadline.start bind_handle_inactivity now)
    (with_expiration (Deadline.start bind_handle_expiration now) c).

(** The transport has confirmed: the channel is active. *)
Definition activated (c : channel) : channel :=
  with_base (set_proxy_stopped false) c.

(** The two timers are both running or both stopped. *)
Definition timers_agree (c : channel) : Prop :=
  Deadline.running (expiration_ c) = Deadline.running (inactivity_ c).

(** A world whose channel has just been constructed. *)
Definition created (w : world) : Prop :=
  exists s cfg r, chan w = fst (Channel.ctor s cfg r).

(** Serial runs: one operation or callback at a time, each running to its
    end before the next begins.  Besides the operations of the two files:
    time passes; a running timer expires and its callback receives success
    at once; work posted to the thread pool runs; and any closure completes
    with any code, which covers cancelled waits, transport and handshake
    completions whatever code they deliver. *)
Inductive serial_step : world -> world -> Prop :=
| serial_channel_start h w :
    serial_step w (exec (Channel.start call h) w)
| serial_channel_stop ec w :
    serial_step w (exec (Channel.stop ec) w)
| serial_signal_activity w :
    serial_step w (exec Channel.signal_activity w)
| serial_set_notify b w :
    serial_step w (exec (Channel.set_notify b) w)
| serial_expiration_fires t cb w :
    wait_ (expiration_ (chan w)) = Some (t, cb) -> t <= clock w ->
    serial_step w
      (exec (call cb success) (with_chan (with_expiration Deadline.stop) w))
| serial_inactivity_fires t cb w :
    wait_ (inactivity_ (chan w)) = Some (t, cb) -> t <= clock w ->
    serial_step w
      (exec (call cb success) (with_chan (with_inactivity Deadline.stop) w))
| serial_dispatch h ec q w :
    posted w = (h, ec) :: q ->
    serial_step w (exec (call h ec) (with_posted (fun _ => q) w))
| serial_completion h ec w :
    serial_step w (exec (call h ec) w)
| serial_time dt w :
    0 <= dt ->
    serial_step w (with_clock (Z.add dt) w)
| serial_session_start h w :
    serial_step w (exec (Session.start call h) w)
| serial_register_channel hs hp w :
    serial_step w (exec (Session.register_channel call hs hp) w).

(** The worlds of serial runs. *)
Inductive serial : world -> Prop :=
| serial_created w : created w -> serial w
| serial_next w w' : serial w -> serial_step w w' -> serial w'.

(** ** Interleaved runs *)

(** The timer functions of [channel.cpp] take no lock ("these are inherent
    races, requiring stranding by stop only") and the handlers of one
    channel are not mutually exclusive.  In an interleaved run each
    statement that reads the stopped flag or touches a timer is a step of
    its own, and other steps may fall between two statements of one
    call. *)

(** The second statement of [channel::start_expiration], reached once the
    stopped check has let the call through. *)
Definition arm_expiration : M unit :=
  now <- gets clock ;;
  modify (with_chan (with_expiration
    (Deadline.start bind_handle_expiration now))).

(** The second statement of [channel::start_inactivity]. *)
Definition arm_inactivity : M unit :=
  now <- gets clock ;;
  modify (with_chan (with_inactivity
    (Deadline.start bind_handle_inactivity now))).

(** Modelled from the spec: [proxy::stop(ec)] up to its call of
    [handle_stopping]: the channel is stopped and its subscribers are
    handed the code, the timers are not cancelled yet. *)
Definition stop_flagged (ec : code) : M unit := Proxy.stop (ret tt) ec.

(** A call that is between two of its statements: [start_expiration] or
    [start_inactivity] after the stopped check and before the timer is
    armed; [handle_stopping] before its first and before its second
    statement. *)
Inductive in_flight : Type :=
| arming_expiration
| arming_inactivity
| cancelling_expiration
| cancelling_inactivity.

(** A world together with the calls in flight. *)
Definition racing : Type := world * list in_flight.

(** What can happen in an interleaved run: every serial step; the transport
    confirms it is enabled (the first half of the transport start, its
    handler runs as a completion); [start_expiration] or [start_inactivity]
    passes its stopped check, and arms later; [stop] sets the flag, and
    [handle_stopping] cancels the timers one after the other later; a timer
    expires, and its callback is posted to run later. *)
Inductive step : racing -> racing -> Prop :=
| step_serial w w' fl :
    serial_step w w' ->
    step (w, fl) (w', fl)
| step_enabled w fl :
    enabled (socket_ (base (chan w))) = success ->
    step (w, fl) (with_chan activated w, fl)
| step_expiration_checked w fl :
    proxy_stopped_ (base (chan w)) = false ->
    step (w, fl) (w, arming_expiration :: fl)
| step_inactivity_checked w fl :
    proxy_stopped_ (base (chan w)) = false ->
    step (w, fl) (w, arming_inactivity :: fl)
| step_expiration_armed w fl fl' :
    step (w, fl ++ arming_expiration :: fl') (exec arm_expiration w, fl ++ fl')
| step_inactivity_armed w fl fl' :
    step (w, fl ++ arming_inactivity :: fl') (exec arm_inactivity w, fl ++ fl')
| step_stop_flagged ec w fl :
    step (w, fl) (exec (stop_flagged ec) w, cancelling_expiration :: fl)
| step_expiration_cancelled w fl fl' :
    step (w, fl ++ cancelling_expiration :: fl')
         (with_chan (with_expiration Deadline.stop) w,
          fl ++ cancelling_inactivity :: fl')
| step_inactivity_cancelled w fl fl' :
    step (w, fl ++ cancelling_inactivity :: fl')
         (with_chan (with_inactivity Deadline.stop) w, fl ++ fl')
| step_expiration_expired t cb w fl :
    wait_ (expiration_ (chan w)) = Some (t, cb) -> t <= clock w ->
    step (w, fl)
         (with_posted (fun q => q ++ [(cb, success)])
            (with_chan (with_expiration Deadline.stop) w), fl)
| step_inactivity_expired t cb w fl :
    wait_ (inactivity_ (chan w)) = Some (t, cb) -> t <= clock w ->
    step (w, fl)
         (with_posted (fun q => q ++ [(cb, success)])
            (with_chan (with_inactivity Deadline.stop) w), fl).

(** The states of interleaved runs. *)
Inductive reachable : racing -> Prop :=
| reachable_created w : created w -> reachable (w, [])
| reachable_next r r' : reachable r -> step r r' -> reachable r'.

(** Every pending wait carries the callback of its own timer. *)
Definition own_callbacks (c : channel) : Prop :=
  (forall t cb, wait_ (expiration_ c) = Some (t, cb) ->
     cb = bind_handle_expiration)
  /\ (forall t cb, wait_ (inactivity_ c) = Some (t, cb) ->
       cb = bind_handle_inactivity).

(** The channel as [stop] leaves it: stopped, no subscriber left to notify,
    both timers cancelled. *)
Definition halted (c : channel) : channel :=
  with_inactivity Deadline.stop
    (with_expiration Deadline.stop
       (with_base (fun b => set_stop_subscriber [] (set_proxy_stopped true b)) c)).

(** The channel with one more subscriber to its stop event. *)
Definition subscribed (h : handler) (c : channel) : channel :=
  with_base (fun b => set_stop_subscriber (stop_subscriber_ b ++ [h]) b) c.

(** The state of the timers follows the state of the transport: on a stopped
    channel no wait is pending, on an active one both timers wait with their
    own callbacks. *)
Definition coherent (c : channel) : Prop :=
  (proxy_stopped_ (base c) = true
   /\ wait_ (expiration_ c) = None
   /\ wait_ (inactivity_ c) = None)
  \/ (proxy_stopped_ (base c) = false
      /\ (exists t, wait_ (expiration_ c) = Some (t, bind_handle_expiration))
      /\ (exists t, wait_ (inactivity_ c) = Some (t, bind_handle_inactivity))).

(** ** Sample data *)

Definition sample_settings : settings :=
  {| channel_expiration := 5400;
     channel_inactivity := 600;
     protocol_maximum := 70013;
     blacklists := [ {| ip := 167772161; port := 8333 |};
                     {| ip := 3232235777; port := 0 |} ] |}.

Definition sample_socket : socket :=
  {| peer := {| ip := 2130706433; port := 18333 |}; enabled := success |}.

Definition sample_random : random :=
  {| draw := fun k lo hi => Z.max lo (Z.min hi (lo + 7919 * Z.of_nat k));
     jitter := fun k d => d - d / 4;
     used := 0 |}.

(** A node in which one channel was just constructed around [s] and the
    session is not started yet. *)
Definition new_world (s : socket) (cfg : settings) : world :=
  {| chan := fst (Channel.ctor s cfg sample_random);
     sess := Session.ctor cfg true;
     network_ := {| stop_subscribers := []; connections := [] |};
     entropy := snd (Channel.ctor s cfg sample_random);
     clock := 1000;
     posted := [];
     log := [] |}.

Definition sample_world : world := new_world sample_socket sample_settings.

(** A channel whose transport refuses to start. *)
Definition refused_world : world :=
  new_world {| peer := peer sample_socket; enabled := other_error 7 |}
    sample_settings.

(** A node configured for the protocol level before reject messages. *)
Definition legacy_world : world :=
  new_world sample_socket
    {| channel_expiration := 5400; channel_inactivity := 600;
       protocol_maximum := 31402; blacklists := [] |}.

(** The same node after the session was started. *)
Definition started_world : world :=
  exec (Session.start call (caller 0)) sample_world.

(** The same node after a channel was registered with the started session. *)
Definition registered_world : world :=
  exec (Session.register_channel call (caller 1) (caller 2)) started_world.

(** The handshake of the registered channel succeeds: it is admitted. *)
Definition admitted_world : world :=
  exec (call (bind_handle_handshake (bind_handle_start (caller 1) (caller 2)))
          success) registered_world.

(** 500 ticks later the inactivity timer of the admitted channel expires. *)
Definition expired_world : world :=
  exec (call bind_handle_inactivity success)
    (with_chan (with_inactivity Deadline.stop)
       (with_clock (Z.add 500) admitted_world)).

(** The thread pool then runs the stop notification that was posted. *)
Definition removed_world : world :=
  exec (call (bind_handle_remove (caller 2)) channel_timeout)
    (with_posted (fun _ => []) expired_world).

(** ** Vocabulary for the properties of whole sequences *)

(** The protocol class [attach_handshake_protocols] starts for a channel
    whose negotiated version is [v]. *)
Definition handshake_for (v : Z) : protocol :=
  if v >=? bip61 then protocol_version_70002 else protocol_version_31402.

(** The world after the two timer calls of [do_start]. *)
Definition timers_started (w : world) : world :=
  if proxy_stopped_ (base (chan w)) then w
  else with_chan (armed (clock w)) w.

(** The code the registration of a channel ends with, when its handshake
    ended with [ec]: the handshake's own error, or else the answer of the
    registry. *)
Definition admission (ec : code) (w : world) : code :=
  if is_error ec then ec else fst (P2p.store w).

(** What a call may do to the world around the channel: it draws no random
    number, does not move the clock, does not touch the configuration or
    the subscribers of the node-wide stop signal, never clears the
    session's stopped flag, and only adds to the log and to the posted
    work. *)
Definition grows (w w' : world) : Prop :=
  entropy w' = entropy w
  /\ clock w' = clock w
  /\ stop_subscribers (network_ w') = stop_subscribers (network_ w)
  /\ settings_ (sess w') = settings_ (sess w)
  /\ notify_on_connect_ (sess w') = notify_on_connect_ (sess w)
  /\ Bool.le (stopped_ (sess w)) (stopped_ (sess w'))
  /\ (exists l, log w' = log w ++ l)
  /\ (exists q, posted w' = posted w ++ q).

(** The registered channel while a call of [signal_activity] is between its
    stopped check and the arming of the timer: another thread stops the
    channel. *)
Definition overtaken_world : world :=
  exec (Channel.stop service_stopped) registered_world.

(** The call of [signal_activity] then arms the inactivity timer. *)
Definition raced_world : world := exec arm_inactivity overtaken_world.

(** * Properties *)

Example sample_started :
  log started_world = [called 0 success]
  /\ stopped_ (sess started_world) = false
  /\ stop_subscribers (network_ started_world) = [bind_handle_stop].
Proof. repeat split. Qed.


Example sample_registered :
  log registered_world =
    [called 0 success;
     protocol_started protocol_version_70002
       (bind_handle_handshake (bind_handle_start (caller 1) (caller 2)))]
  /\ nonce_ (chan registered_world) = 15839
  /\ notify_ (chan registered_world) = true
  /\ wait_ (expiration_ (chan registered_world))
     = Some (5050, bind_handle_expiration)
  /\ wait_ (inactivity_ (chan registered_world))
     = Some (1450, bind_handle_inactivity).
Proof. vm_compute. repeat split. Qed.

Example sample_admitted :
  log admitted_world = log registered_world ++ [called 1 success]
  /\ connections (network_ admitted_world) = [(15839, 2130706433)]
  /\ stop_subscriber_ (base (chan admitted_world))
     = [bind_handle_remove (caller 2)].
Proof. vm_compute. repeat split. Qed.

Example sample_expired :
  proxy_stopped_ (base (chan expired_world)) = true
  /\ wait_ (expiration_ (chan expired_world)) = None
  /\ wait_ (inactivity_ (chan expired_world)) = None
  /\ posted expired_world = [(bind_handle_remove (caller 2), channel_timeout)]
  /\ log expired_world = log admitted_world.
Proof. vm_compute. repeat split. Qed.

Example sample_removed :
  log removed_world = log admitted_world ++ [called 2 success]
  /\ connections (network_ removed_world) = [].
Proof. vm_compute. repeat split. Qed.

(** ** Tools *)

Ltac open_world w :=
  let b := fresh "b" in
  let e := fresh "e" in
  let i := fresh "i" in
  let c := fresh "c" in
  destruct w as [c ? ? ? ? ? ?];
  destruct c as [b ? ? e i];
  destruct b as [? ? ? ?]; destruct e as [? ?]; destruct i as [? ?].

Lemma code_eqb_eq (a b : code) : code_eqb a b = true <-> a = b.
Proof.
  unfold code_eqb. destruct (code_eq_dec a b); split; congruence.
Qed.

Lemma is_error_success : is_error success = false.
Proof. reflexivity. Qed.

Lemma is_error_false (ec : code) : is_error ec = false -> ec = success.
Proof.
  unfold is_error. intros H. apply negb_false_iff in H.
  now apply code_eqb_eq.
Qed.

Lemma is_error_true (ec : code) : ec <> success -> is_error ec = true.
Proof.
  intros H. destruct (is_error ec) eqn:E; [reflexivity|].
  now apply is_error_false in E.
Qed.

Lemma exec_bind {A B : Type} (m : M A) (k : A -> M B) (w : world) :
  exec (bind m k) w = exec (k (fst (m w))) (exec m w).
Proof. reflexivity. Qed.

(** ** session::blacklisted *)

(** C9: [session::blacklisted(a)] answers true exactly when some entry of the
    configured blacklists has the IP address of [a]; the port of [a] plays
    no role, and the call leaves the world as it was. *)
Theorem blacklisted_iff_ip_listed (a : authority) (w : world) :
  snd (Session.blacklisted a w) = w
  /\ (fst (Session.blacklisted a w) = true <->
      exists blocked,
        In blocked (blacklists (settings_ (sess w))) /\ ip blocked = ip a)
  /\ (forall p,
        fst (Session.blacklisted {| ip := ip a; port := p |} w)
        = fst (Session.blacklisted a w)).
Proof.
  split; [reflexivity|]. split; [|reflexivity].
  unfold Session.blacklisted, bind, gets, ret; simpl.
  rewrite existsb_exists. split.
  - intros [blocked [Hin Heq]]. exists blocked. split; [exact Hin|].
    symmetry. now apply Z.eqb_eq.
  - intros [blocked [Hin Heq]]. exists blocked. split; [exact Hin|].
    apply Z.eqb_eq. now symmetry.
Qed.

Example blacklisted_same_ip_other_port :
  fst (Session.blacklisted {| ip := 167772161; port := 1 |} sample_world) = true
  /\ fst (Session.blacklisted {| ip := 167772162; port := 8333 |} sample_world)
     = false.
Proof. split; reflexivity. Qed.

(** ** session::attach_handshake_protocols *)

(** C7: [session::attach_handshake_protocols] attaches and starts exactly
    one handshake protocol: [protocol_version_70002] when the channel's
    negotiated version is at or above [bip61], [protocol_version_31402] when
    it is strictly below; nothing else changes. *)
Theorem attach_handshake_protocols_by_version (hs : handler) (w : world) :
  (bip61 <= negotiated_version_ (base (chan w)) ->
   exec (Session.attach_handshake_protocols hs) w
   = with_log (fun l => l ++ [protocol_started protocol_version_70002 hs]) w)
  /\ (negotiated_version_ (base (chan w)) < bip61 ->
      exec (Session.attach_handshake_protocols hs) w
      = with_log (fun l => l ++ [protocol_started protocol_version_31402 hs]) w).
Proof.
  unfold Session.attach_handshake_protocols, Proxy.negotiated_version,
    Session.attach_start, emit, exec, bind, gets, modify; simpl.
  split; intros H.
  - assert (E : (negotiated_version_ (base (chan w)) >=? bip61) = true)
      by (apply Z.geb_le; exact H).
    now rewrite E.
  - assert (E : (negotiated_version_ (base (chan w)) >=? bip61) = false).
    { rewrite Z.geb_leb. apply Z.leb_gt. exact H. }
    now rewrite E.
Qed.

(** ** The timer callbacks of a channel *)

(** C5: [channel::stopped(ec)] holds exactly when the channel is already
    stopped or [ec] is [channel_stopped] or [service_stopped], and reads
    only; when it holds, [handle_expiration(ec)] and [handle_inactivity(ec)]
    change nothing and stop nothing; otherwise each of them is
    [stop(channel_timeout)]. *)
Theorem timer_callbacks_guarded (ec : code) (w : world) :
  snd (Channel.stopped ec w) = w
  /\ (fst (Channel.stopped ec w) = true <->
      proxy_stopped_ (base (chan w)) = true
      \/ ec = channel_stopped \/ ec = service_stopped)
  /\ (fst (Channel.stopped ec w) = true ->
      Channel.handle_expiration ec w = (tt, w)
      /\ Channel.handle_inactivity ec w = (tt, w))
  /\ (fst (Channel.stopped ec w) = false ->
      Channel.handle_expiration ec w = Channel.stop channel_timeout w
      /\ Channel.handle_inactivity ec w = Channel.stop channel_timeout w).
Proof.
  split; [reflexivity|]. split.
  - unfold Channel.stopped, Proxy.stopped, bind, gets, ret; simpl.
    rewrite !orb_true_iff, !code_eqb_eq. tauto.
  - unfold Channel.handle_expiration, Channel.handle_inactivity.
    split; intros H; split; unfold bind at 1; cbv beta; rewrite H;
      reflexivity.
Qed.

(** ** channel::signal_activity *)

(** C8: [channel::signal_activity] touches the inactivity timer and nothing
    else: the expiration timer (its pending wait, so whether it runs and
    when it expires, and its duration) and every other field of the channel
    and of the world are as before; the inactivity timer is re-armed from
    the current time when the channel is not stopped and left alone when it
    is. *)
Theorem signal_activity_frame (w : world) :
  exec Channel.signal_activity w
  = with_chan (with_inactivity (fun d =>
      if proxy_stopped_ (base (chan w)) then d
      else Deadline.start bind_handle_inactivity (clock w) d)) w
  /\ expiration_ (chan (exec Channel.signal_activity w)) = expiration_ (chan w)
  /\ base (chan (exec Channel.signal_activity w)) = base (chan w)
  /\ notify_ (chan (exec Channel.signal_activity w)) = notify_ (chan w)
  /\ nonce_ (chan (exec Channel.signal_activity w)) = nonce_ (chan w).
Proof.
  unfold Channel.signal_activity, Channel.start_inactivity, Proxy.stopped,
    exec, bind, gets, modify, ret; simpl.
  destruct (proxy_stopped_ (base (chan w))) eqn:E; simpl.
  - repeat split. open_world w. reflexivity.
  - repeat split.
Qed.

Example signal_activity_rearms_inactivity_only :
  wait_ (inactivity_ (chan
    (exec Channel.signal_activity (with_clock (Z.add 100) registered_world))))
  = Some (1550, bind_handle_inactivity)
  /\ wait_ (expiration_ (chan
    (exec Channel.signal_activity (with_clock (Z.add 100) registered_world))))
  = Some (5050, bind_handle_expiration).
Proof. vm_compute. split; reflexivity. Qed.

(** ** session::register_channel on a stopped session *)

(** C3: on a session whose stopped flag is set, [session::register_channel]
    calls [handle_started(service_stopped)] and then
    [handle_stopped(service_stopped)], once each and before it returns, and
    does nothing else: with closures of the caller the world differs from
    the one before only by these two calls, so the channel is not started,
    no timer is armed and no stage of the sequence is entered. *)
Theorem register_channel_on_stopped_session
  (hs hp : handler) (s p : nat) (w : world) :
  stopped_ (sess w) = true ->
  exec (Session.register_channel call hs hp) w
  = exec (call hp service_stopped) (exec (call hs service_stopped) w)
  /\ exec (Session.register_channel call (caller s) (caller p)) w
     = with_log (fun l => l ++ [called s service_stopped;
                                called p service_stopped]) w.
Proof.
  intros H.
  unfold Session.register_channel, Session.stopped, exec, bind, gets; simpl.
  rewrite H. split; [reflexivity|].
  unfold emit, modify, with_log; simpl. now rewrite <- app_assoc.
Qed.

(** ** session::start *)

(** C6: [session::start(h)] on a session that is already started calls
    [h(operation_failed)] and changes nothing itself, so the stopped flag
    stays false; on a stopped session it clears the flag, subscribes
    [handle_stop] to the node-wide stop signal and then calls
    [h(success)]. *)
Theorem session_start_once (h : handler) (id : nat) (w : world) :
  (stopped_ (sess w) = false ->
   exec (Session.start call h) w = exec (call h operation_failed) w
   /\ exec (Session.start call (caller id)) w
      = with_log (fun l => l ++ [called id operation_failed]) w
   /\ stopped_ (sess (exec (Session.start call (caller id)) w)) = false)
  /\ (stopped_ (sess w) = true ->
      exec (Session.start call h) w
      = exec (call h success)
          (with_network (fun n =>
             set_stop_subscribers (stop_subscribers n ++ [bind_handle_stop]) n)
             (with_sess (set_session_stopped false) w))
      /\ stopped_ (sess (exec (Session.start call (caller id)) w)) = false).
Proof.
  unfold Session.start, Session.stopped, Session.subscribe_stop,
    P2p.subscribe_stop, exec, bind, gets, modify; simpl.
  split; intros H; rewrite H; simpl; repeat split; exact H.
Qed.

(** ** session::handle_start *)

(** C2: [session::handle_start(ec, channel, handle_started, handle_stopped)]
    with an error code stops the channel with [ec] and calls
    [handle_stopped(ec)] at once; with success it subscribes
    [handle_remove], bound to [handle_stopped], to the channel's stop event
    and does not call [handle_stopped]; in both cases [handle_started(ec)] is
    called once, last. *)
Theorem handle_start_funnel (ec : code) (hs hp : handler) (s p : nat) (w : world) :
  (ec <> success ->
   exec (Session.handle_start call ec hs hp) w
   = exec (call hs ec) (exec (call hp ec) (exec (Channel.stop ec) w))
   /\ exec (Session.handle_start call ec (caller s) (caller p)) w
      = with_log (fun l => l ++ [called p ec; called s ec])
          (exec (Channel.stop ec) w)
   /\ proxy_stopped_ (base (chan
        (exec (Session.handle_start call ec (caller s) (caller p)) w))) = true)
  /\ (ec = success ->
      exec (Session.handle_start call ec hs hp) w
      = exec (call hs success)
          (exec (Proxy.subscribe_stop (bind_handle_remove hp)) w)
      /\ exec (Session.handle_start call ec (caller s) (caller p)) w
         = with_log (fun l => l ++ [called s success])
             (with_chan (subscribed (bind_handle_remove (caller p))) w)).
Proof.
  split; intros H.
  - unfold Session.handle_start. rewrite (is_error_true ec H).
    split; [reflexivity|]. split; [|reflexivity].
    unfold exec, bind, emit, modify; simpl.
    unfold with_log; simpl. now rewrite <- app_assoc.
  - subst ec. split; reflexivity.
Qed.

(** ** channel::start *)

(** C1: [channel::start(h)] hands [do_start], bound to [h], to the transport
    start.  When the transport reports success the channel is active, both
    timers are armed and [h(success)] is called.  The timers are armed in
    [do_start] only, that is once the transport start has completed, and
    only if the transport is not stopped then: on a channel whose transport
    is still stopped they are left as they were. *)
Theorem channel_start_arms_after_transport (h : handler) (w : world) :
  Channel.start call h w = Proxy.start call (bind_do_start h) w
  /\ (enabled (socket_ (base (chan w))) = success ->
      exec (Channel.start call h) w
      = exec (call h success)
          (with_chan (fun c => armed (clock w) (activated c)) w))
  /\ (forall ec,
        exec (Channel.do_start call ec h) w
        = exec (call h success)
            (if proxy_stopped_ (base (chan w)) then w
             else with_chan (armed (clock w)) w))
  /\ (enabled (socket_ (base (chan w))) <> success ->
      proxy_stopped_ (base (chan w)) = true ->
      exec (Channel.start call h) w = exec (call h success) w).
Proof.
  split; [reflexivity|]. split; [|split].
  - intros H.
    unfold Channel.start, Proxy.start, exec, bind, gets; simpl.
    rewrite H. reflexivity.
  - intros ec.
    unfold Channel.do_start, Channel.start_expiration,
      Channel.start_inactivity, Proxy.stopped, exec, bind, gets, ret, modify.
    destruct (proxy_stopped_ (base (chan w))) eqn:E; simpl; rewrite E;
      reflexivity.
  - intros H S.
    unfold Channel.start, Proxy.start, exec, bind, gets; simpl.
    rewrite (is_error_true _ H); simpl.
    unfold Channel.do_start, Channel.start_expiration,
      Channel.start_inactivity, Proxy.stopped, exec, bind, gets, ret; simpl.
    rewrite S; simpl. rewrite S. reflexivity.
Qed.

(** ** What a closure can do to the channel *)

Section Frame.

Variable P : channel -> Prop.

Hypothesis P_armed :
  forall now c, P c -> proxy_stopped_ (base c) = false -> P (armed now c).
Hypothesis P_halted : forall c, P c -> P (halted c).
Hypothesis P_subscribed : forall h c, P c -> P (subscribed h c).

Lemma start_timers_preserves (w : world) :
  P (chan w) ->
  P (chan (exec (Channel.start_expiration ;; Channel.start_inactivity) w)).
Proof.
  intros H.
  unfold Channel.start_expiration, Channel.start_inactivity, Proxy.stopped,
    exec, bind, gets, ret, modify.
  destruct (proxy_stopped_ (base (chan w))) eqn:E; simpl; rewrite E; simpl.
  - exact H.
  - now apply (P_armed (clock w)).
Qed.

Lemma stop_preserves (ec : code) (w : world) :
  P (chan w) -> P (chan (exec (Channel.stop ec) w)).
Proof. intros H. now apply P_halted in H. Qed.

Lemma timer_callback_preserves (ec : code) (w : world) :
  P (chan w) ->
  P (chan (exec (Channel.handle_expiration ec) w))
  /\ P (chan (exec (Channel.handle_inactivity ec) w)).
Proof.
  intros H.
  unfold Channel.handle_expiration, Channel.handle_inactivity.
  rewrite !exec_bind.
  replace (exec (Channel.stopped ec) w) with w by reflexivity.
  destruct (fst (Channel.stopped ec w)); split;
    first [exact H | now apply stop_preserves].
Qed.

(** Whatever closure is called, with whatever code, a property of the
    channel that survives arming the timers of an active channel, stopping
    and subscribing survives the call. *)
Lemma call_preserves (h : handler) :
  forall ec w, P (chan w) -> P (chan (exec (call h ec) w)).
Proof.
  induction h as [id | h IH | | | | hs IH | hs IH | hs IHs hp IHp | hp IH];
    intros ec w H; simpl call.
  - exact H.
  - unfold Channel.do_start.
    change (P (chan (exec (call h success)
      (exec (Channel.start_expiration ;; Channel.start_inactivity) w)))).
    apply IH. now apply start_timers_preserves.
  - now apply timer_callback_preserves.
  - now apply timer_callback_preserves.
  - exact H.
  - unfold Session.handle_starting. destruct (is_error ec).
    + now apply IH.
    + unfold Session.attach_handshake_protocols, Proxy.negotiated_version,
        exec, bind, gets; simpl.
      destruct (_ >=? _); exact H.
  - unfold Session.handle_handshake. destruct (is_error ec).
    + now apply IH.
    + unfold Session.handshake_complete. rewrite exec_bind. apply IH.
      unfold P2p.store, Channel.nonce, Proxy.authority, exec, bind, gets;
        simpl.
      destruct (existsb _ _); exact H.
  - unfold Session.handle_start. rewrite exec_bind. apply IHs.
    destruct (is_error ec).
    + rewrite exec_bind. apply IHp. now apply stop_preserves.
    + now apply P_subscribed.
  - unfold Session.handle_remove. rewrite exec_bind. apply IH. exact H.
Qed.

End Frame.

(** ** The timers follow the transport *)

Lemma coherent_armed (now : Z) (c : channel) :
  proxy_stopped_ (base c) = false -> coherent (armed now c).
Proof.
  intros H. right. split; [exact H|].
  split; eexists; reflexivity.
Qed.

Lemma coherent_halted (c : channel) : coherent (halted c).
Proof. left. repeat split. Qed.

Lemma coherent_subscribed (h : handler) (c : channel) :
  coherent c -> coherent (subscribed h c).
Proof. intros H. exact H. Qed.

Lemma coherent_timers_agree (c : channel) : coherent c -> timers_agree c.
Proof.
  unfold timers_agree, Deadline.running.
  intros [[_ [E I]] | [_ [[t E] [t' I]]]]; rewrite E, I; reflexivity.
Qed.

Lemma call_coherent (h : handler) (ec : code) (w : world) :
  coherent (chan w) -> coherent (chan (exec (call h ec) w)).
Proof.
  apply call_preserves.
  - intros now c _ H. now apply coherent_armed.
  - intros c _. apply coherent_halted.
  - intros h' c H. now apply coherent_subscribed.
Qed.

Lemma created_coherent (w : world) : created w -> coherent (chan w).
Proof.
  intros [s [cfg [r H]]]. rewrite H. left. repeat split.
Qed.

Lemma channel_start_coherent (h : handler) (w : world) :
  coherent (chan w) -> coherent (chan (exec (Channel.start call h) w)).
Proof.
  intros H.
  unfold Channel.start, Proxy.start. rewrite !exec_bind.
  simpl call. unfold Channel.do_start.
  match goal with
  | |- coherent (chan (exec (_ ;; _ ;; call h success) ?w')) =>
      change (coherent (chan (exec (call h success)
        (exec (Channel.start_expiration ;; Channel.start_inactivity) w'))))
  end.
  apply call_coherent.
  unfold gets at 1; simpl fst.
  destruct (is_error (enabled (socket_ (base (chan w))))).
  - apply start_timers_preserves.
    + intros now c _ E. now apply coherent_armed.
    + exact H.
  - apply (coherent_armed (clock w)). reflexivity.
Qed.

Lemma serial_step_coherent (w w' : world) :
  serial_step w w' -> coherent (chan w) -> coherent (chan w').
Proof.
  intros S H. destruct S as
    [h w | ec w | w | b w | t cb w E T | t cb w E T | h ec q w E | h ec w
     | dt w T | h w | hs hp w].
  - now apply channel_start_coherent.
  - exact (coherent_halted (chan w)).
  - unfold Channel.signal_activity, Channel.start_inactivity, Proxy.stopped,
      exec, bind, gets, ret, modify; simpl.
    destruct H as [[S [X I]] | [S [X [t I]]]]; rewrite S; simpl.
    + left. auto.
    + right. repeat split; [exact S | exact X | eexists; reflexivity].
  - exact H.
  - destruct H as [[_ [X _]] | [S [[t' X] _]]]; [congruence|].
    assert (cb = bind_handle_expiration) by congruence. subst cb.
    unfold call, Channel.handle_expiration, Channel.stopped, Proxy.stopped,
      exec, bind, gets, ret; simpl.
    rewrite S; simpl. left. repeat split.
  - destruct H as [[_ [_ I]] | [S [_ [t' I]]]]; [congruence|].
    assert (cb = bind_handle_inactivity) by congruence. subst cb.
    unfold call, Channel.handle_inactivity, Channel.stopped, Proxy.stopped,
      exec, bind, gets, ret; simpl.
    rewrite S; simpl. left. repeat split.
  - apply call_coherent. exact H.
  - apply call_coherent. exact H.
  - exact H.
  - unfold Session.start, Session.stopped. rewrite exec_bind.
    unfold gets at 1 2; simpl fst; unfold exec at 2; simpl snd.
    destruct (negb (stopped_ (sess w))).
    + now apply call_coherent.
    + rewrite !exec_bind. apply call_coherent. exact H.
  - unfold Session.register_channel, Session.stopped. rewrite exec_bind.
    unfold gets at 1 2; simpl fst; unfold exec at 2; simpl snd.
    destruct (stopped_ (sess w)).
    + rewrite exec_bind. now do 2 apply call_coherent.
    + unfold Session.start_channel. rewrite !exec_bind.
      apply channel_start_coherent. exact H.
Qed.

Lemma serial_coherent (w : world) : serial w -> coherent (chan w).
Proof.
  induction 1 as [w C | w w' _ IH S].
  - now apply created_coherent.
  - now apply (serial_step_coherent w w').
Qed.

(** C4, as amended: in every state a channel reaches while its operations
    and callbacks run one at a time, the expiration and the inactivity timer
    are both running or both stopped.  The operations on the timers keep it
    so from such a state: [do_start] (arms both on an active channel),
    [handle_stopping] (cancels both) and [signal_activity], which re-arms
    the inactivity timer only where it is already running: where it is not,
    the call changes nothing.  (The timer functions take no lock: when a
    stop falls between the stopped check and the arming of a timer, the
    channel is left stopped with that one timer running.) *)
Theorem timers_run_together (w : world) :
  serial w ->
  timers_agree (chan w)
  /\ (forall ec h, timers_agree (chan (exec (Channel.do_start call ec h) w)))
  /\ timers_agree (chan (exec Channel.handle_stopping w))
  /\ timers_agree (chan (exec Channel.signal_activity w))
  /\ (Deadline.running (inactivity_ (chan w)) = false ->
      exec Channel.signal_activity w = w).
Proof.
  intros R. pose proof (serial_coherent w R) as H.
  split; [now apply coherent_timers_agree|].
  split; [|split; [|split]].
  - intros ec h. apply coherent_timers_agree.
    apply (serial_coherent _
      (serial_next _ _ R (serial_completion (bind_do_start h) ec w))).
  - reflexivity.
  - apply coherent_timers_agree.
    apply (serial_coherent _ (serial_next _ _ R (serial_signal_activity w))).
  - intros I.
    destruct H as [[S _] | [_ [_ [t X]]]].
    + unfold Channel.signal_activity, Channel.start_inactivity, Proxy.stopped,
        exec, bind, gets, ret; simpl.
      rewrite S. reflexivity.
    + unfold Deadline.running in I. rewrite X in I. discriminate.
Qed.

(** ** The nonce of a registered channel *)

Lemma call_keeps_nonce (h : handler) (ec : code) (w : world) :
  nonce_ (chan (exec (call h ec) w)) = nonce_ (chan w).
Proof.
  apply (call_preserves (fun c => nonce_ c = nonce_ (chan w))); auto.
Qed.

Lemma to_uint64_small (v : Z) : 1 <= v <= max_uint64 -> to_uint64 v = v.
Proof.
  unfold to_uint64, max_uint64. intros H. apply Z.mod_small. lia.
Qed.

(** C10: after [session::start_channel] the nonce of the channel is the
    number drawn from 1 to [max_uint64], hence at least 1 and never the 0 a
    channel is constructed with (given that the generator answers within the
    bounds it is asked for); no closure of the two files changes it
    afterwards. *)
Theorem start_channel_nonce_positive (hs : handler) (w : world) :
  honours_range (entropy w) ->
  nonce_ (chan (exec (Session.start_channel call hs) w))
  = draw (entropy w) (used (entropy w)) 1 max_uint64
  /\ 1 <= nonce_ (chan (exec (Session.start_channel call hs) w)) <= max_uint64
  /\ nonce_ (chan (exec (Session.start_channel call hs) w)) <> 0
  /\ (forall h ec,
        nonce_ (chan (exec (call h ec)
                        (exec (Session.start_channel call hs) w)))
        = nonce_ (chan (exec (Session.start_channel call hs) w)))
  /\ (forall s cfg r, nonce_ (fst (Channel.ctor s cfg r)) = 0).
Proof.
  intros R.
  assert (B : 1 <= draw (entropy w) (used (entropy w)) 1 max_uint64
              <= max_uint64)
    by (apply R; unfold max_uint64; lia).
  assert (E : nonce_ (chan (exec (Session.start_channel call hs) w))
              = draw (entropy w) (used (entropy w)) 1 max_uint64).
  { unfold Session.start_channel, Channel.start, Proxy.start.
    rewrite !exec_bind. rewrite call_keeps_nonce.
    unfold gets at 1; simpl fst.
    match goal with
    | |- context [is_error ?c] => destruct (is_error c)
    end; simpl; now apply to_uint64_small. }
  rewrite E.
  split; [reflexivity|]. split; [exact B|]. split; [lia|].
  split; [intros h ec; now rewrite call_keeps_nonce|].
  reflexivity.
Qed.

(** ** The properties at work on the sample node *)

Lemma sample_random_honours_range (n : nat) :
  honours_range (set_used n sample_random).
Proof. intros k lo hi H; simpl; lia. Qed.

Lemma registered_world_serial : serial registered_world.
Proof.
  apply (serial_next started_world); [|apply serial_register_channel].
  apply (serial_next sample_world); [|apply serial_session_start].
  apply serial_created.
  exists sample_socket, sample_settings, sample_random. reflexivity.
Qed.

Lemma serial_reachable (w : world) : serial w -> reachable (w, []).
Proof.
  induction 1 as [w C | w w' _ IH S].
  - now apply reachable_created.
  - apply (reachable_next (w, [])); [exact IH|]. now apply step_serial.
Qed.

Lemma raced_world_reachable : reachable (raced_world, []).
Proof.
  apply (reachable_next (overtaken_world, [arming_inactivity]));
    [|exact (step_inactivity_armed overtaken_world [] [])].
  apply (reachable_next (registered_world, [arming_inactivity]));
    [|exact (step_serial _ _ _
               (serial_channel_stop service_stopped registered_world))].
  apply (reachable_next (registered_world, []));
    [|apply step_inactivity_checked; vm_compute; reflexivity].
  apply serial_reachable. exact registered_world_serial.
Qed.

(** C4 as stated fails: the registered channel is active with both timers
    running; a call of [signal_activity] passes the stopped check of
    [start_inactivity], the channel is stopped (both timers cancelled), and
    the call then arms the inactivity timer.  The state is reachable and the
    stopped channel has exactly one timer running. *)
Lemma timers_disagree_after_race :
  reachable (raced_world, [])
  /\ proxy_stopped_ (base (chan raced_world)) = true
  /\ Deadline.running (expiration_ (chan raced_world)) = false
  /\ Deadline.running (inactivity_ (chan raced_world)) = true
  /\ ~ timers_agree (chan raced_world).
Proof.
  split; [exact raced_world_reachable|].
  repeat split; try (vm_compute; reflexivity).
  unfold timers_agree. vm_compute. discriminate.
Qed.

Lemma channel_start_arms_after_transport_witness :
  (enabled (socket_ (base (chan sample_world))) = success
   /\ exec (Channel.start call (caller 3)) sample_world
      = exec (call (caller 3) success)
          (with_chan (fun c => armed (clock sample_world) (activated c))
             sample_world))
  /\ (enabled (socket_ (base (chan refused_world))) <> success
      /\ proxy_stopped_ (base (chan refused_world)) = true
      /\ exec (Channel.start call (caller 3)) refused_world
         = exec (call (caller 3) success) refused_world).
Proof.
  destruct (channel_start_arms_after_transport (caller 3) sample_world)
    as [_ [H _]].
  destruct (channel_start_arms_after_transport (caller 3) refused_world)
    as [_ [_ [_ H']]].
  split.
  - split; [reflexivity|]. apply H. reflexivity.
  - split; [discriminate|]. split; [reflexivity|].
    apply H'; [discriminate | reflexivity].
Defined.

Lemma handle_start_funnel_witness :
  (channel_timeout <> success
   /\ exec (Session.handle_start call channel_timeout (caller 1) (caller 2))
        registered_world
      = with_log (fun l => l ++ [called 2 channel_timeout;
                                 called 1 channel_timeout])
          (exec (Channel.stop channel_timeout) registered_world))
  /\ (success = success
      /\ exec (Session.handle_start call success (caller 1) (caller 2))
           registered_world
         = with_log (fun l => l ++ [called 1 success])
             (with_chan (subscribed (bind_handle_remove (caller 2)))
                registered_world)).
Proof.
  destruct (handle_start_funnel channel_timeout (caller 1) (caller 2) 1 2
              registered_world) as [H _].
  destruct (handle_start_funnel success (caller 1) (caller 2) 1 2
              registered_world) as [_ H'].
  split.
  - split; [discriminate|]. apply H. discriminate.
  - split; [reflexivity|]. apply H'. reflexivity.
Defined.

Lemma register_channel_on_stopped_session_witness :
  stopped_ (sess sample_world) = true
  /\ exec (Session.register_channel call (caller 1) (caller 2)) sample_world
     = with_log (fun l => l ++ [called 1 service_stopped;
                                called 2 service_stopped]) sample_world.
Proof.
  split; [reflexivity|].
  apply (register_channel_on_stopped_session (caller 1) (caller 2) 1 2
           sample_world).
  reflexivity.
Defined.

Lemma timers_run_together_witness :
  serial registered_world /\ timers_agree (chan registered_world).
Proof.
  split; [exact registered_world_serial|].
  apply (timers_run_together registered_world).
  exact registered_world_serial.
Defined.

Lemma timer_callbacks_guarded_witness :
  (fst (Channel.stopped channel_stopped registered_world) = true
   /\ Channel.handle_expiration channel_stopped registered_world
      = (tt, registered_world))
  /\ (fst (Channel.stopped success registered_world) = false
      /\ Channel.handle_inactivity success registered_world
         = Channel.stop channel_timeout registered_world).
Proof.
  destruct (timer_callbacks_guarded channel_stopped registered_world)
    as [_ [_ [H _]]].
  destruct (timer_callbacks_guarded success registered_world)
    as [_ [_ [_ H']]].
  split.
  - split; [reflexivity|]. apply H. reflexivity.
  - split; [vm_compute; reflexivity|]. apply H'. vm_compute; reflexivity.
Defined.

Lemma session_start_once_witness :
  (stopped_ (sess started_world) = false
   /\ exec (Session.start call (caller 5)) started_world
      = with_log (fun l => l ++ [called 5 operation_failed]) started_world)
  /\ (stopped_ (sess sample_world) = true
      /\ stopped_ (sess (exec (Session.start call (caller 5)) sample_world))
         = false).
Proof.
  destruct (session_start_once (caller 5) 5 started_world) as [H _].
  destruct (session_start_once (caller 5) 5 sample_world) as [_ H'].
  split.
  - split; [reflexivity|]. apply H. reflexivity.
  - split; [reflexivity|]. apply H'. reflexivity.
Defined.

Lemma attach_handshake_protocols_by_version_witness :
  (bip61 <= negotiated_version_ (base (chan sample_world))
   /\ exec (Session.attach_handshake_protocols (caller 1)) sample_world
      = with_log (fun l => l ++ [protocol_started protocol_version_70002
                                   (caller 1)]) sample_world)
  /\ (negotiated_version_ (base (chan legacy_world)) < bip61
      /\ exec (Session.attach_handshake_protocols (caller 1)) legacy_world
         = with_log (fun l => l ++ [protocol_started protocol_version_31402
                                      (caller 1)]) legacy_world).
Proof.
  destruct (attach_handshake_protocols_by_version (caller 1) sample_world)
    as [H _].
  destruct (attach_handshake_protocols_by_version (caller 1) legacy_world)
    as [_ H'].
  split.
  - split; [vm_compute; discriminate|]. apply H. vm_compute; discriminate.
  - split; [reflexivity|]. apply H'. reflexivity.
Defined.

Lemma start_channel_nonce_positive_witness :
  honours_range (entropy started_world)
  /\ nonce_ (chan (exec (Session.start_channel call (caller 1)) started_world))
     <> 0.
Proof.
  split; [exact (sample_random_honours_range 2)|].
  apply (start_channel_nonce_positive (caller 1) started_world).
  exact (sample_random_honours_range 2).
Defined.

(** * Whole sequences *)

(** Unfolds every operation of the two files down to the monad. *)
Ltac unfold_operations :=
  unfold Session.register_channel, Session.start_channel,
    Session.handle_starting, Session.attach_handshake_protocols,
    Session.attach_start, Session.handle_handshake,
    Session.handshake_complete, Session.handle_start, Session.handle_remove,
    Session.start, Session.subscribe_stop, Session.handle_stop,
    Session.stopped, Session.stopped_code, P2p.store, P2p.remove,
    P2p.subscribe_stop, Channel.start, Channel.do_start,
    Channel.start_expiration, Channel.start_inactivity,
    Channel.signal_activity, Channel.handle_expiration,
    Channel.handle_inactivity, Channel.stopped, Channel.stop,
    Channel.handle_stopping, Channel.set_notify, Channel.set_nonce,
    Channel.nonce, Channel.notify, Proxy.start, Proxy.stop, Proxy.stopped,
    Proxy.subscribe_stop, Proxy.negotiated_version, Proxy.authority,
    pseudo_random_next, emit, exec, bind, gets, ret, modify in *.

(** Runs the operations symbolically, as far as the codes at hand allow. *)
Ltac run := repeat progress (unfold_operations; simpl in *).

(** Runs the operations and follows every branch they take. *)
Ltac run_cases :=
  run;
  repeat (match goal with
          | H : ?b = _ |- context [if ?b then _ else _] => rewrite H
          | |- context [if ?b then _ else _] => destruct b eqn:?
          end; run).

(** For long sequences: the world is taken apart into its fields and the
    operations are evaluated by value, so that no intermediate world is
    computed twice. *)
Ltac open_all w :=
  let ps := fresh "ps" in let pip := fresh "pip" in
  let pport := fresh "pport" in let en := fresh "en" in
  let nv := fresh "nv" in let subs := fresh "subs" in
  let nt := fresh "nt" in let nn := fresh "nn" in
  let de := fresh "de" in let we := fresh "we" in
  let di := fresh "di" in let wi := fresh "wi" in
  let st := fresh "st" in let noc := fresh "noc" in
  let cfg := fresh "cfg" in let nsubs := fresh "nsubs" in
  let conns := fresh "conns" in let dr := fresh "dr" in
  let ji := fresh "ji" in let us := fresh "us" in
  let now := fresh "now" in let q := fresh "q" in let lg := fresh "lg" in
  destruct w as [[[ps [[pip pport] en] nv subs] nt nn [de we] [di wi]]
                   [st noc cfg] [nsubs conns] [dr ji us] now q lg];
  cbn [chan sess network_ entropy clock posted log
       base notify_ nonce_ expiration_ inactivity_
       proxy_stopped_ socket_ negotiated_version_ stop_subscriber_
       stopped_ notify_on_connect_ settings_
       stop_subscribers connections draw jitter used
       duration_ wait_ peer enabled ip port] in *.

Ltac eval_operations :=
  cbv beta iota zeta delta
    [exec bind gets ret modify emit call
     Session.register_channel Session.start_channel
     Session.handle_starting Session.attach_handshake_protocols
     Session.attach_start Session.handle_handshake
     Session.handshake_complete Session.handle_start Session.handle_remove
     Session.start Session.subscribe_stop Session.handle_stop
     Session.stopped Session.stopped_code P2p.store P2p.remove
     P2p.subscribe_stop Channel.start Channel.do_start
     Channel.start_expiration Channel.start_inactivity
     Channel.signal_activity Channel.handle_expiration
     Channel.handle_inactivity Channel.stopped Channel.stop
     Channel.handle_stopping Channel.set_notify Channel.set_nonce
     Channel.nonce Channel.notify Proxy.start Proxy.stop Proxy.stopped
     Proxy.subscribe_stop Proxy.negotiated_version Proxy.authority
     pseudo_random_next Deadline.start Deadline.stop
     set_used set_stop_subscribers set_connections set_wait
     set_proxy_stopped set_stop_subscriber set_session_stopped
     with_base with_notify with_nonce with_expiration with_inactivity
     with_chan with_sess with_network with_entropy with_clock with_posted
     with_log armed activated halted subscribed timers_started
     chan sess network_ entropy clock posted log
     base notify_ nonce_ expiration_ inactivity_
     proxy_stopped_ socket_ negotiated_version_ stop_subscriber_
     stopped_ notify_on_connect_ settings_
     stop_subscribers connections draw jitter used
     duration_ wait_ peer enabled ip port fst snd orb negb andb].

(** Tests on codes that are both written out are decided. *)
Ltac decide_codes :=
  repeat match goal with
         | |- context [code_eqb ?a ?b] =>
             is_constructor a; is_constructor b;
             let v := eval cbv in (code_eqb a b) in
             match v with
             | true => change (code_eqb a b) with true
             | false => change (code_eqb a b) with false
             end
         | |- context [is_error ?a] =>
             is_constructor a;
             let v := eval cbv in (is_error a) in
             match v with
             | true => change (is_error a) with true
             | false => change (is_error a) with false
             end
         end.

Ltac run_by_value := repeat progress (eval_operations; decide_codes).

Ltac run_branches :=
  run_by_value;
  repeat (match goal with
          | H : ?b = _ |- context [if ?b then _ else _] => rewrite H
          | |- context [if ?b then _ else _] => destruct b eqn:?
          end; run_by_value).

(** ** The start of a channel never reports a failure *)

(** X1: [channel::do_start] passes success to its handler whatever code the
    transport delivered.  So when the session starts a channel with
    [handle_starting] as the handler, the "failed to start" branch of
    [handle_starting] is never taken: one handshake protocol is started,
    chosen by the negotiated version, and [handle_started] is not called,
    also when the transport refused to start. *)
Theorem channel_start_always_reaches_handshake
  (ec : code) (hs : handler) (w : world) :
  exec (call (bind_do_start (bind_handle_starting hs)) ec) w
  = with_log (fun l => l ++
      [protocol_started (handshake_for (negotiated_version_ (base (chan w))))
         (bind_handle_handshake hs)]) (timers_started w)
  /\ log (exec (Channel.start call (bind_handle_starting hs)) w)
     = log w ++
       [protocol_started (handshake_for (negotiated_version_ (base (chan w))))
          (bind_handle_handshake hs)].
Proof.
  split.
  - unfold handshake_for. open_all w.
    run_branches; first [congruence | reflexivity].
  - unfold handshake_for. open_all w.
    run_branches; first [congruence | reflexivity].
Qed.

(** ** What register_channel has done when it returns *)

(** X2: on a started session [session::register_channel] returns with the
    handshake begun and no closure of the caller called yet: the log gains
    the start of one handshake protocol, bound to continue with
    [handle_handshake] and then [handle_start], and nothing else.  The
    channel carries the session's notify policy and the nonce just drawn;
    one random number was drawn; session, registry and posted work are as
    before. *)
Theorem register_channel_starts_handshake (hs hp : handler) (w : world) :
  stopped_ (sess w) = false ->
  let w' := exec (Session.register_channel call hs hp) w in
  log w' = log w ++
    [protocol_started (handshake_for (negotiated_version_ (base (chan w))))
       (bind_handle_handshake (bind_handle_start hs hp))]
  /\ notify_ (chan w') = notify_on_connect_ (sess w)
  /\ nonce_ (chan w')
     = to_uint64 (draw (entropy w) (used (entropy w)) 1 max_uint64)
  /\ used (entropy w') = S (used (entropy w))
  /\ sess w' = sess w
  /\ network_ w' = network_ w
  /\ posted w' = posted w.
Proof.
  intros S. unfold handshake_for. cbv zeta.
  open_all w. subst.
  run_branches; first [congruence | repeat split].
Qed.

Lemma register_channel_starts_handshake_witness :
  stopped_ (sess started_world) = false
  /\ log (exec (Session.register_channel call (caller 1) (caller 2))
            started_world)
     = log started_world ++
       [protocol_started
          (handshake_for (negotiated_version_ (base (chan started_world))))
          (bind_handle_handshake (bind_handle_start (caller 1) (caller 2)))].
Proof.
  split; [reflexivity|].
  exact (proj1 (register_channel_starts_handshake (caller 1) (caller 2)
                  started_world eq_refl)).
Defined.

(** ** How a handshake ends *)

(** X3: when the handshake of a channel completes with [ec], the caller's
    [handle_started] is called exactly once, last, with the handshake's
    error or else with the answer of the registry.  If that code is an error
    the channel is stopped and [handle_stopped] is called with the same code
    just before; if it is success [handle_stopped] is not called but bound
    into [handle_remove] and subscribed to the channel's stop.  A failed
    handshake does not touch the registry. *)
Theorem handshake_outcome_funnel (ec : code) (s p : nat) (w : world) :
  let r := admission ec w in
  let w' := exec (call (bind_handle_handshake
                          (bind_handle_start (caller s) (caller p))) ec) w in
  log w' = log w ++ (if is_error r then [called p r; called s r]
                     else [called s success])
  /\ proxy_stopped_ (base (chan w'))
     = (if is_error r then true else proxy_stopped_ (base (chan w)))
  /\ stop_subscriber_ (base (chan w'))
     = (if is_error r then []
        else stop_subscriber_ (base (chan w)) ++ [bind_handle_remove (caller p)])
  /\ (if is_error ec then network_ w' = network_ w else True).
Proof.
  unfold admission. cbv zeta. simpl call.
  unfold Session.handle_handshake.
  destruct (is_error ec) eqn:E.
  - simpl call. unfold Session.handle_start. rewrite E. run.
    rewrite <- app_assoc. repeat split.
  - unfold Session.handshake_complete, exec, bind.
    simpl call. unfold Session.handle_start.
    destruct (is_error (fst (P2p.store w))) eqn:R.
    + run_cases; try discriminate; rewrite <- ?app_assoc; repeat split.
    + run_cases; try discriminate; repeat split.
Qed.

(** ** What no closure does *)

(** X4: whatever closure of the two files is called, with whatever code, the
    identity of the channel is not changed by it: nonce, notify flag,
    transport handle, negotiated version and the durations of both timers
    are as before. *)
Theorem closures_keep_channel_identity (h : handler) (ec : code) (w : world) :
  nonce_ (chan (exec (call h ec) w)) = nonce_ (chan w)
  /\ notify_ (chan (exec (call h ec) w)) = notify_ (chan w)
  /\ socket_ (base (chan (exec (call h ec) w))) = socket_ (base (chan w))
  /\ negotiated_version_ (base (chan (exec (call h ec) w)))
     = negotiated_version_ (base (chan w))
  /\ duration_ (expiration_ (chan (exec (call h ec) w)))
     = duration_ (expiration_ (chan w))
  /\ duration_ (inactivity_ (chan (exec (call h ec) w)))
     = duration_ (inactivity_ (chan w)).
Proof.
  apply (call_preserves (fun c =>
    nonce_ c = nonce_ (chan w)
    /\ notify_ c = notify_ (chan w)
    /\ socket_ (base c) = socket_ (base (chan w))
    /\ negotiated_version_ (base c) = negotiated_version_ (base (chan w))
    /\ duration_ (expiration_ c) = duration_ (expiration_ (chan w))
    /\ duration_ (inactivity_ c) = duration_ (inactivity_ (chan w))));
    try (intros; assumption).
  repeat split.
Qed.

Lemma grows_refl (w : world) : grows w w.
Proof.
  unfold grows. repeat split; try reflexivity.
  - destruct (stopped_ (sess w)); simpl; auto.
  - exists []. now rewrite app_nil_r.
  - exists []. now rewrite app_nil_r.
Qed.

Lemma grows_trans (w1 w2 w3 : world) :
  grows w1 w2 -> grows w2 w3 -> grows w1 w3.
Proof.
  unfold grows.
  intros [E1 [C1 [N1 [S1 [O1 [B1 [[l1 L1] [q1 Q1]]]]]]]]
         [E2 [C2 [N2 [S2 [O2 [B2 [[l2 L2] [q2 Q2]]]]]]]].
  repeat split; try congruence.
  - destruct (stopped_ (sess w1)); simpl in *; [|exact I].
    rewrite B1 in B2. exact B2.
  - exists (l1 ++ l2). rewrite L2, L1. now rewrite app_assoc.
  - exists (q1 ++ q2). rewrite Q2, Q1. now rewrite app_assoc.
Qed.

Lemma grows_channel (f : channel -> channel) (w : world) :
  grows w (with_chan f w).
Proof.
  unfold grows. simpl. repeat split.
  - destruct (stopped_ (sess w)); simpl; auto.
  - exists []. now rewrite app_nil_r.
  - exists []. now rewrite app_nil_r.
Qed.

Lemma grows_emit (e : event) (w : world) : grows w (exec (emit e) w).
Proof.
  unfold grows. run. repeat split.
  - destruct (stopped_ (sess w)); simpl; auto.
  - eexists; reflexivity.
  - exists []. now rewrite app_nil_r.
Qed.

Lemma grows_stop (ec : code) (w : world) : grows w (exec (Channel.stop ec) w).
Proof.
  unfold grows. run. repeat split.
  - destruct (stopped_ (sess w)); simpl; auto.
  - exists []. now rewrite app_nil_r.
  - eexists; reflexivity.
Qed.

Lemma grows_start_timers (w : world) :
  grows w (exec (Channel.start_expiration ;; Channel.start_inactivity) w).
Proof.
  run_cases; try congruence.
  - apply grows_refl.
  - apply (grows_channel (armed (clock w)) w).
Qed.

Lemma grows_timer_callback (ec : code) (w : world) :
  grows w (exec (Channel.handle_expiration ec) w)
  /\ grows w (exec (Channel.handle_inactivity ec) w).
Proof.
  unfold Channel.handle_expiration, Channel.handle_inactivity.
  rewrite !exec_bind.
  replace (exec (Channel.stopped ec) w) with w by reflexivity.
  destruct (fst (Channel.stopped ec w)); split;
    first [apply grows_refl | apply grows_stop].
Qed.

Lemma grows_registry (f : list (Z * Z) -> list (Z * Z)) (w : world) :
  grows w (with_network (fun n => set_connections (f (connections n)) n) w).
Proof.
  unfold grows. simpl. repeat split.
  - destruct (stopped_ (sess w)); simpl; auto.
  - exists []. now rewrite app_nil_r.
  - exists []. now rewrite app_nil_r.
Qed.

Lemma grows_store (w : world) : grows w (exec P2p.store w).
Proof.
  run_cases.
  - apply grows_refl.
  - apply (grows_registry (fun l => l ++ _) w).
Qed.

Lemma grows_handle_stop (ec : code) (w : world) :
  grows w (exec (Session.handle_stop ec) w).
Proof.
  unfold grows. run. repeat split.
  - destruct (stopped_ (sess w)); simpl; auto.
  - exists []. now rewrite app_nil_r.
  - exists []. now rewrite app_nil_r.
Qed.

Lemma call_grows (h : handler) : forall ec w, grows w (exec (call h ec) w).
Proof.
  induction h as [id | h IH | | | | hs IH | hs IH | hs IHs hp IHp | hp IH];
    intros ec w; simpl call.
  - apply grows_emit.
  - unfold Channel.do_start.
    change (grows w (exec (call h success)
      (exec (Channel.start_expiration ;; Channel.start_inactivity) w))).
    eapply grows_trans; [apply grows_start_timers | apply IH].
  - apply grows_timer_callback.
  - apply grows_timer_callback.
  - apply grows_handle_stop.
  - unfold Session.handle_starting. destruct (is_error ec); [apply IH|].
    unfold Session.attach_handshake_protocols, Session.attach_start.
    rewrite exec_bind.
    replace (exec Proxy.negotiated_version w) with w by reflexivity.
    destruct (_ >=? _); apply grows_emit.
  - unfold Session.handle_handshake. destruct (is_error ec); [apply IH|].
    unfold Session.handshake_complete. rewrite exec_bind.
    eapply grows_trans; [apply grows_store | apply IH].
  - unfold Session.handle_start. rewrite exec_bind.
    eapply grows_trans; [|apply IHs].
    destruct (is_error ec).
    + rewrite exec_bind.
      eapply grows_trans; [apply grows_stop | apply IHp].
    + apply grows_channel.
  - unfold Session.handle_remove. rewrite exec_bind.
    eapply grows_trans; [|apply IH].
    apply (grows_registry (filter _) w).
Qed.

(** X5: no closure of the two files, called with whatever code, draws a
    random number, moves the clock, changes the session's configuration or
    the subscribers of the node-wide stop signal, or clears the session's
    stopped flag; the log and the posted work only get longer. *)
Theorem closures_only_add (h : handler) (ec : code) (w : world) :
  entropy (exec (call h ec) w) = entropy w
  /\ clock (exec (call h ec) w) = clock w
  /\ stop_subscribers (network_ (exec (call h ec) w))
     = stop_subscribers (network_ w)
  /\ settings_ (sess (exec (call h ec) w)) = settings_ (sess w)
  /\ notify_on_connect_ (sess (exec (call h ec) w))
     = notify_on_connect_ (sess w)
  /\ Bool.le (stopped_ (sess w)) (stopped_ (sess (exec (call h ec) w)))
  /\ (exists l, log (exec (call h ec) w) = log w ++ l)
  /\ (exists q, posted (exec (call h ec) w) = posted w ++ q).
Proof. exact (call_grows h ec w). Qed.

(** ** Timers against stop *)

(** X6: a timer callback that arrives after the channel was stopped does
    nothing, whatever code it carries and whatever code the channel was
    stopped with: no second stop, no further notification. *)
Theorem stale_timer_callback_is_dropped (stop_code ec : code) (w : world) :
  exec (Channel.handle_expiration ec) (exec (Channel.stop stop_code) w)
  = exec (Channel.stop stop_code) w
  /\ exec (Channel.handle_inactivity ec) (exec (Channel.stop stop_code) w)
     = exec (Channel.stop stop_code) w.
Proof. split; reflexivity. Qed.

(** X7: the inactivity deadline is a rolling one: activity signalled later
    replaces what an earlier signal had set, and on an active channel the
    wait armed by [signal_activity] ends one timer duration after the
    signal. *)
Theorem signal_activity_rolls_deadline (dt : Z) (w : world) :
  exec Channel.signal_activity
    (with_clock (Z.add dt) (exec Channel.signal_activity w))
  = exec Channel.signal_activity (with_clock (Z.add dt) w)
  /\ (proxy_stopped_ (base (chan w)) = false ->
      wait_ (inactivity_ (chan (exec Channel.signal_activity w)))
      = Some (clock w + duration_ (inactivity_ (chan w)),
              bind_handle_inactivity)).
Proof.
  split.
  - destruct (proxy_stopped_ (base (chan w))) eqn:E; run; rewrite E; run;
      rewrite ?E; reflexivity.
  - intros E. run. rewrite E. reflexivity.
Qed.

Lemma signal_activity_rolls_deadline_witness :
  proxy_stopped_ (base (chan registered_world)) = false
  /\ wait_ (inactivity_ (chan (exec Channel.signal_activity registered_world)))
     = Some (clock registered_world
             + duration_ (inactivity_ (chan registered_world)),
             bind_handle_inactivity).
Proof.
  split; [reflexivity|].
  exact (proj2 (signal_activity_rolls_deadline 0 registered_world) eq_refl).
Defined.

(** X8: [channel::handle_stopping] may be called any number of times: after
    it neither timer runs, in whatever state the channel was, a second call
    changes nothing, and the call touches nothing but the two pending
    waits. *)
Theorem handle_stopping_repeatable (w : world) :
  Deadline.running (expiration_ (chan (exec Channel.handle_stopping w))) = false
  /\ Deadline.running (inactivity_ (chan (exec Channel.handle_stopping w)))
     = false
  /\ exec Channel.handle_stopping (exec Channel.handle_stopping w)
     = exec Channel.handle_stopping w
  /\ exec Channel.handle_stopping w
     = with_chan (fun c => with_inactivity (set_wait None)
                             (with_expiration (set_wait None) c)) w.
Proof. repeat split. Qed.

Lemma start_timers_split :
  Channel.start_expiration
  = (s <- Proxy.stopped ;; if s then ret tt else arm_expiration)
  /\ Channel.start_inactivity
     = (s <- Proxy.stopped ;; if s then ret tt else arm_inactivity)
  /\ (forall ec w,
        exec (Channel.stop ec) w
        = with_chan (with_inactivity Deadline.stop)
            (with_chan (with_expiration Deadline.stop)
               (exec (stop_flagged ec) w))).
Proof. repeat split. Qed.

Lemma own_call (h : handler) (ec : code) (w : world) :
  own_callbacks (chan w) -> own_callbacks (chan (exec (call h ec) w)).
Proof.
  apply call_preserves.
  - intros now c _ _. split; simpl; intros t cb E; congruence.
  - intros c _. split; simpl; intros t cb E; discriminate.
  - intros h' c H. exact H.
Qed.

Lemma own_cleared (c : channel) :
  own_callbacks c ->
  own_callbacks (with_expiration Deadline.stop c)
  /\ own_callbacks (with_inactivity Deadline.stop c).
Proof.
  intros [E I]. split; split; simpl; intros t cb X;
    first [discriminate | now apply (E t) | now apply (I t)].
Qed.

Lemma own_armed (now : Z) (c : channel) :
  own_callbacks c ->
  own_callbacks (with_expiration (Deadline.start bind_handle_expiration now) c)
  /\ own_callbacks
       (with_inactivity (Deadline.start bind_handle_inactivity now) c).
Proof.
  intros [E I]. split; split; simpl; intros t cb X;
    first [congruence | now apply (E t) | now apply (I t)].
Qed.

Lemma own_channel_start (h : handler) (w : world) :
  own_callbacks (chan w) ->
  own_callbacks (chan (exec (Channel.start call h) w)).
Proof.
  intros H. unfold Channel.start, Proxy.start. rewrite !exec_bind.
  apply own_call. unfold gets at 1; simpl fst.
  destruct (is_error (enabled (socket_ (base (chan w))))); exact H.
Qed.

Lemma own_serial_step (w w' : world) :
  serial_step w w' -> own_callbacks (chan w) -> own_callbacks (chan w').
Proof.
  intros S H. destruct S as
    [h w | ec w | w | b w | t cb w E T | t cb w E T | h ec q w E | h ec w
     | dt w T | h w | hs hp w].
  - now apply own_channel_start.
  - split; simpl; intros t cb E; discriminate.
  - unfold Channel.signal_activity, Channel.start_inactivity, Proxy.stopped,
      exec, bind, gets, ret, modify; simpl.
    destruct (proxy_stopped_ (base (chan w))); simpl;
      [exact H | now apply own_armed].
  - exact H.
  - apply own_call. now apply own_cleared.
  - apply own_call. now apply own_cleared.
  - apply own_call. exact H.
  - apply own_call. exact H.
  - exact H.
  - unfold Session.start, Session.stopped. rewrite exec_bind.
    unfold gets at 1 2; simpl fst; unfold exec at 2; simpl snd.
    destruct (negb (stopped_ (sess w))).
    + now apply own_call.
    + rewrite !exec_bind. apply own_call. exact H.
  - unfold Session.register_channel, Session.stopped. rewrite exec_bind.
    unfold gets at 1 2; simpl fst; unfold exec at 2; simpl snd.
    destruct (stopped_ (sess w)).
    + rewrite exec_bind. now do 2 apply own_call.
    + unfold Session.start_channel. rewrite !exec_bind.
      apply own_channel_start. exact H.
Qed.

Lemma own_step (r r' : racing) :
  step r r' -> own_callbacks (chan (fst r)) -> own_callbacks (chan (fst r')).
Proof.
  intros S H. destruct S as
    [w w' fl S | w fl E | w fl E | w fl E | w fl fl' | w fl fl' | ec w fl
     | w fl fl' | w fl fl' | t cb w fl E T | t cb w fl E T]; simpl in *.
  - now apply (own_serial_step w w').
  - exact H.
  - exact H.
  - exact H.
  - now apply own_armed.
  - now apply own_armed.
  - exact H.
  - now apply own_cleared.
  - now apply own_cleared.
  - now apply own_cleared.
  - now apply own_cleared.
Qed.

Lemma reachable_own (r : racing) :
  reachable r -> own_callbacks (chan (fst r)).
Proof.
  induction 1 as [w [s [cfg [g C]]] | r r' _ IH S].
  - simpl. rewrite C. split; simpl; intros t cb E; discriminate.
  - now apply (own_step r r').
Qed.

(** X9: while the operations and callbacks of a channel run one at a time,
    each timer runs exactly when the channel is not stopped.  In every
    interleaved run, where the statements of the timer functions and of stop
    may fall between each other, a pending wait still carries the callback
    of its own timer; so when a timer that was left running on a stopped
    channel expires, delivering its callback changes nothing. *)
Theorem timers_follow_transport (w : world) (fl : list in_flight) :
  (serial w ->
   Deadline.running (expiration_ (chan w))
   = negb (proxy_stopped_ (base (chan w)))
   /\ Deadline.running (inactivity_ (chan w))
      = negb (proxy_stopped_ (base (chan w))))
  /\ (reachable (w, fl) ->
      own_callbacks (chan w)
      /\ (proxy_stopped_ (base (chan w)) = true ->
          (forall t cb, wait_ (expiration_ (chan w)) = Some (t, cb) ->
             exec (call cb success) (with_chan (with_expiration Deadline.stop) w)
             = with_chan (with_expiration Deadline.stop) w)
          /\ (forall t cb, wait_ (inactivity_ (chan w)) = Some (t, cb) ->
               exec (call cb success)
                 (with_chan (with_inactivity Deadline.stop) w)
               = with_chan (with_inactivity Deadline.stop) w))).
Proof.
  split.
  - intros R. unfold Deadline.running.
    destruct (serial_coherent w R) as [[S [E I]] | [S [[t E] [t' I]]]];
      rewrite S, E, I; split; reflexivity.
  - intros R. pose proof (reachable_own _ R) as [E I]. simpl in E, I.
    split; [split; assumption|].
    intros S. split; intros t cb X.
    + rewrite (E t cb X). simpl call.
      unfold Channel.handle_expiration, Channel.stopped, Proxy.stopped,
        exec, bind, gets, ret; simpl.
      rewrite S. reflexivity.
    + rewrite (I t cb X). simpl call.
      unfold Channel.handle_inactivity, Channel.stopped, Proxy.stopped,
        exec, bind, gets, ret; simpl.
      rewrite S. reflexivity.
Qed.

Lemma timers_follow_transport_witness :
  (serial registered_world
   /\ Deadline.running (expiration_ (chan registered_world))
      = negb (proxy_stopped_ (base (chan registered_world))))
  /\ (reachable (raced_world, [])
      /\ own_callbacks (chan raced_world)).
Proof.
  destruct (timers_follow_transport registered_world []) as [H _].
  destruct (timers_follow_transport raced_world []) as [_ H'].
  split.
  - split; [exact registered_world_serial|].
    exact (proj1 (H registered_world_serial)).
  - split; [exact raced_world_reachable|].
    exact (proj1 (H' raced_world_reachable)).
Defined.

(** ** The life of a session *)

(** X10: starting a stopped session twice in a row subscribes [handle_stop]
    once and answers success, then [operation_failed].  Once the stop
    signal has been handled the session can be started again; that start
    succeeds and subscribes [handle_stop] a second time. *)
Theorem session_start_twice (a b : nat) (ec : code) (w : world) :
  stopped_ (sess w) = true ->
  exec (Session.start call (caller b)) (exec (Session.start call (caller a)) w)
  = with_log (fun l => l ++ [called a success; called b operation_failed])
      (with_network (fun n =>
         set_stop_subscribers (stop_subscribers n ++ [bind_handle_stop]) n)
         (with_sess (set_session_stopped false) w))
  /\ exec (Session.start call (caller b))
       (exec (call bind_handle_stop ec) (exec (Session.start call (caller a)) w))
     = with_log (fun l => l ++ [called a success; called b success])
         (with_network (fun n =>
            set_stop_subscribers
              (stop_subscribers n ++ [bind_handle_stop; bind_handle_stop]) n)
            (with_sess (set_session_stopped false) w)).
Proof.
  intros S. split; run; rewrite S; run; unfold with_log, with_network; simpl;
    rewrite <- !app_assoc; reflexivity.
Qed.

Lemma session_start_twice_witness :
  stopped_ (sess sample_world) = true
  /\ exec (Session.start call (caller 6))
       (exec (Session.start call (caller 5)) sample_world)
     = with_log (fun l => l ++ [called 5 success; called 6 operation_failed])
         (with_network (fun n =>
            set_stop_subscribers (stop_subscribers n ++ [bind_handle_stop]) n)
            (with_sess (set_session_stopped false) sample_world)).
Proof.
  split; [reflexivity|].
  exact (proj1 (session_start_twice 5 6 success sample_world eq_refl)).
Defined.

(** X11: once the session has handled the stop signal, with whatever code,
    it counts as stopped for every code, and [register_channel] refuses:
    both closures of the caller receive [service_stopped] and the channel is
    left alone.  [service_stopped] as a code counts as stopped even while
    the session runs. *)
Theorem stopped_session_refuses (ec : code) (s p : nat) (w : world) :
  exec (Session.register_channel call (caller s) (caller p))
    (exec (call bind_handle_stop ec) w)
  = with_log (fun l => l ++ [called s service_stopped;
                             called p service_stopped])
      (with_sess (set_session_stopped true) w)
  /\ (forall ec', fst (Session.stopped_code ec'
                         (exec (call bind_handle_stop ec) w)) = true)
  /\ fst (Session.stopped_code service_stopped w) = true.
Proof.
  split; [|split].
  - run. unfold with_log; simpl. now rewrite <- app_assoc.
  - intros ec'. reflexivity.
  - run. apply orb_true_r.
Qed.

(** ** The properties of a channel *)

(** X12: what [set_notify] and [set_nonce] store is what [notify] and
    [nonce] read; the nonce is kept as a 64-bit value, so a value within
    that range is read back as it is; the last write wins and the two
    properties do not disturb each other. *)
Theorem channel_properties_read_back (b : bool) (v v' : Z) (w : world) :
  fst (Channel.notify (exec (Channel.set_notify b) w)) = b
  /\ fst (Channel.nonce (exec (Channel.set_nonce v) w)) = v mod 2 ^ 64
  /\ (0 <= v <= max_uint64 ->
      fst (Channel.nonce (exec (Channel.set_nonce v) w)) = v)
  /\ exec (Channel.set_nonce v) (exec (Channel.set_nonce v') w)
     = exec (Channel.set_nonce v) w
  /\ exec (Channel.set_notify b) (exec (Channel.set_nonce v) w)
     = exec (Channel.set_nonce v) (exec (Channel.set_notify b) w)
  /\ snd (Channel.nonce w) = w
  /\ snd (Channel.notify w) = w.
Proof.
  repeat split.
  intros H. unfold Channel.nonce, Channel.set_nonce, exec, gets, modify.
  cbn [fst snd chan with_chan with_nonce nonce_]. unfold to_uint64.
  apply Z.mod_small. unfold max_uint64 in H. lia.
Qed.

Lemma channel_properties_read_back_witness :
  0 <= 15839 <= max_uint64
  /\ fst (Channel.nonce (exec (Channel.set_nonce 15839) sample_world)) = 15839.
Proof.
  assert (H : 0 <= 15839 <= max_uint64) by (unfold max_uint64; lia).
  split; [exact H|].
  destruct (channel_properties_read_back true 15839 0 sample_world)
    as [_ [_ [R _]]].
  exact (R H).
Defined.

(** ** From registration to removal *)

Lemma filter_admitted (n a : Z) (l : list (Z * Z)) :
  existsb (fun c => (fst c =? n) || (snd c =? a)) l = false ->
  filter (fun c => negb (fst c =? n)) (l ++ [(n, a)]) = l.
Proof.
  induction l as [|c l IH]; simpl; intros H.
  - now rewrite Z.eqb_refl.
  - apply orb_false_iff in H. destruct H as [H1 H2].
    apply orb_false_iff in H1. destruct H1 as [H1 _].
    rewrite H1; simpl. now rewrite IH.
Qed.

(** X13: one registration from beginning to end.  On a started session,
    with a transport that starts, a channel nobody has subscribed to yet, an
    idle thread pool and a registry that holds neither the nonce to be drawn
    nor the peer's address: [register_channel] starts the handshake; when
    the handshake succeeds the channel is admitted and [handle_started]
    receives success; when the inactivity timer then expires the channel is
    stopped and the one notification posted is [handle_remove] with
    [channel_timeout]; when that runs, [handle_stopped] receives success and
    the registry holds what it held at the start.  Each closure of the
    caller was called exactly once. *)
Theorem registration_lifecycle (s p : nat) (w : world) :
  stopped_ (sess w) = false ->
  enabled (socket_ (base (chan w))) = success ->
  stop_subscriber_ (base (chan w)) = [] ->
  posted w = [] ->
  existsb (fun c =>
      (fst c =? to_uint64 (draw (entropy w) (used (entropy w)) 1 max_uint64))
      || (snd c =? ip (peer (socket_ (base (chan w))))))
    (connections (network_ w)) = false ->
  let w1 := exec (Session.register_channel call (caller s) (caller p)) w in
  let w2 := exec (call (bind_handle_handshake
                          (bind_handle_start (caller s) (caller p))) success)
              w1 in
  let w3 := exec (call bind_handle_inactivity success)
              (with_chan (with_inactivity Deadline.stop) w2) in
  let w4 := exec (call (bind_handle_remove (caller p)) channel_timeout)
              (with_posted (fun _ => []) w3) in
  log w2 = log w1 ++ [called s success]
  /\ connections (network_ w2)
     = connections (network_ w)
       ++ [(to_uint64 (draw (entropy w) (used (entropy w)) 1 max_uint64),
            ip (peer (socket_ (base (chan w)))))]
  /\ proxy_stopped_ (base (chan w3)) = true
  /\ posted w3 = [(bind_handle_remove (caller p), channel_timeout)]
  /\ log w4 = log w ++
       [protocol_started (handshake_for (negotiated_version_ (base (chan w))))
          (bind_handle_handshake (bind_handle_start (caller s) (caller p)));
        called s success; called p success]
  /\ connections (network_ w4) = connections (network_ w).
Proof.
  open_all w. intros H1 H2 H3 H4 H5. subst.
  unfold handshake_for. cbv zeta.
  destruct (nv >=? bip61) eqn:V;
    run_by_value; rewrite ?V; run_by_value;
    match goal with
    | |- context [existsb ?f conns] =>
        replace (existsb f conns) with false by (symmetry; exact H5)
    end;
    run_by_value;
    repeat split; try reflexivity;
    first [ rewrite <- !app_assoc; reflexivity
          | exact (filter_admitted _ _ conns H5) ].
Qed.

Lemma registration_lifecycle_witness :
  stopped_ (sess started_world) = false
  /\ enabled (socket_ (base (chan started_world))) = success
  /\ stop_subscriber_ (base (chan started_world)) = []
  /\ posted started_world = []
  /\ existsb (fun c =>
         (fst c =? to_uint64 (draw (entropy started_world)
                                (used (entropy started_world)) 1 max_uint64))
         || (snd c =? ip (peer (socket_ (base (chan started_world))))))
       (connections (network_ started_world)) = false
  /\ log (exec (call (bind_handle_handshake
                        (bind_handle_start (caller 1) (caller 2))) success)
            (exec (Session.register_channel call (caller 1) (caller 2))
               started_world))
     = log (exec (Session.register_channel call (caller 1) (caller 2))
              started_world) ++ [called 1 success].
Proof.
  assert (H1 : stopped_ (sess started_world) = false)
    by (vm_compute; reflexivity).
  assert (H2 : enabled (socket_ (base (chan started_world))) = success)
    by (vm_compute; reflexivity).
  assert (H3 : stop_subscriber_ (base (chan started_world)) = [])
    by (vm_compute; reflexivity).
  assert (H4 : posted started_world = []) by (vm_compute; reflexivity).
  assert (H5 : existsb (fun c =>
         (fst c =? to_uint64 (draw (entropy started_world)
                                (used (entropy started_world)) 1 max_uint64))
         || (snd c =? ip (peer (socket_ (base (chan started_world))))))
       (connections (network_ started_world)) = false)
    by (vm_compute; reflexivity).
  split; [exact H1|]. split; [exact H2|]. split; [exact H3|].
  split; [exact H4|]. split; [exact H5|].
  exact (proj1 (registration_lifecycle 1 2 started_world H1 H2 H3 H4 H5)).
Defined.
